(** * The French deck of [notes_data_model.py]

    A shallow embedding of the [Card] named tuple, the [FrenchDeck] class
    and the notebook cells that use them ([len], indexing and slicing,
    forward and reverse iteration, [sorted] with the [spades_high] key,
    [random.choice] and [repr]), followed by the properties stated about
    them.

    Python integers are [Z]; Python strings are [string], each character
    standing for the code point of the same number (0..255); Python lists
    are [list]; the dictionary [suit_vals] is a [gmap].  The deck object is
    the state of a small state-and-exception monad, so that "the operation
    does not change the collection" is a statement about the final state. *)

From Stdlib Require Import ZArith String Ascii DecimalString Lia Sorted.
From stdpp Require Import gmap strings list.

Local Open Scope string_scope.
Local Open Scope Z_scope.

(** ** Python built-ins used by the notebook *)

(** [range(lo, hi)] *)
Definition range (lo hi : Z) : list Z :=
  map (fun i : nat => lo + Z.of_nat i) (seq 0 (Z.to_nat (hi - lo))).

(** [str(n)] for an integer [n] *)
Definition str (n : Z) : string := NilZero.string_of_int (Z.to_int n).

(** [list(s)] for a string [s]: its characters, each as a string *)
Fixpoint list_of_str (s : string) : list string :=
  match s with
  | EmptyString => []
  | String c s' => String c EmptyString :: list_of_str s'
  end.

(** [c.isspace()] on the code points 0..255 *)
Definition isspace (c : ascii) : bool :=
  let n := Z.of_N (N_of_ascii c) in
  ((9 <=? n) && (n <=? 13)) || ((28 <=? n) && (n <=? 32))
  || (n =? 133) || (n =? 160).

(** [s.split()]: the maximal runs of non-whitespace characters.  [word] is
    the run read so far. *)
Fixpoint split_from (word : string) (s : string) : list string :=
  match s with
  | EmptyString => if String.eqb word "" then [] else [word]
  | String c s' =>
      if isspace c
      then (if String.eqb word "" then split_from "" s'
            else word :: split_from "" s')
      else split_from (word ++ String c EmptyString) s'
  end.

Definition split (s : string) : list string := split_from "" s.

(** [len(l)] for a list *)
Definition len {A : Type} (l : list A) : Z := Z.of_nat (length l).

(** ** Exceptions and outcomes *)

Inductive exn : Type :=
| IndexError
| ValueError
| KeyError.

(** What a call does: return a value, raise, or (for the loops, which are
    run with a bound on the number of steps) exhaust that bound. *)
Inductive outcome (A : Type) : Type :=
| Ok (a : A)
| Raise (e : exn)
| OutOfFuel.

Arguments Ok {A} a.
Arguments Raise {A} e.
Arguments OutOfFuel {A}.

#[global] Instance exn_eq_dec : EqDecision exn.
Proof. solve_decision. Defined.

#[global] Instance outcome_eq_dec {A : Type} `{EqDecision A} : EqDecision (outcome A).
Proof. solve_decision. Defined.

Definition obind {A B : Type} (o : outcome A) (k : A -> outcome B) : outcome B :=
  match o with
  | Ok a => k a
  | Raise e => Raise e
  | OutOfFuel => OutOfFuel
  end.

(** [[f(x) for x in l]] for an [f] that may raise: left to right, the first
    exception ends the comprehension. *)
Fixpoint omap {A B : Type} (f : A -> outcome B) (l : list A) : outcome (list B) :=
  match l with
  | [] => Ok []
  | x :: l' => obind (f x) (fun y => obind (omap f l') (fun ys => Ok (y :: ys)))
  end.

(** ** Lists: indexing and slicing *)

(** The argument of [__getitem__]: an integer or [slice(start, stop, step)],
    where each of the three may be [None]. *)
Inductive position : Type :=
| Int (i : Z)
| Slice (start stop step : option Z).

(** A negative index counts from the end. *)
Definition normalize (length i : Z) : Z :=
  if i <? 0 then i + length else i.

(** [l[i]] for an integer [i] *)
Definition list_item {A : Type} (l : list A) (i : Z) : outcome A :=
  let i := normalize (len l) i in
  if (i <? 0) || (len l <=? i) then Raise IndexError
  else match l !! Z.to_nat i with
       | Some a => Ok a
       | None => Raise IndexError
       end.

(** One bound of a slice brought into range ([slice.indices]). *)
Definition adjust_index (length step : Z) (i : Z) : Z :=
  if i <? 0 then
    (let i := i + length in
     if i <? 0 then (if step <? 0 then -1 else 0) else i)
  else if length <=? i then (if step <? 0 then length - 1 else length)
  else i.

Definition slice_start (length step : Z) (start : option Z) : Z :=
  match start with
  | Some i => adjust_index length step i
  | None => if step <? 0 then length - 1 else 0
  end.

Definition slice_stop (length step : Z) (stop : option Z) : Z :=
  match stop with
  | Some i => adjust_index length step i
  | None => if step <? 0 then -1 else length
  end.

Definition slice_length (start stop step : Z) : Z :=
  if step <? 0 then
    (if stop <? start then (start - stop - 1) / (- step) + 1 else 0)
  else
    (if start <? stop then (stop - start - 1) / step + 1 else 0).

(** [l[start:stop:step]]: a new list. *)
Definition list_slice {A : Type} (l : list A) (start stop step : option Z)
  : outcome (list A) :=
  let step := default 1 step in
  if step =? 0 then Raise ValueError
  else
    let start := slice_start (len l) step start in
    let stop := slice_stop (len l) step stop in
    omap (fun k : Z => list_item l (start + k * step))
         (range 0 (slice_length start stop step)).

(** ** The data model *)

(** [Card = collections.namedtuple("Card", ["rank", "suit"])] *)
Record Card : Type := mkCard { rank : string; suit : string }.

#[global] Instance Card_eq_dec : EqDecision Card.
Proof. solve_decision. Defined.

(** An instance of [FrenchDeck]: its only attribute is [_cards]. *)
Record FrenchDeck : Type := mkFrenchDeck { _cards : list Card }.

(** Class attributes. *)
Definition ranks : list string := map str (range 2 11) ++ list_of_str "JQKA".
Definition suits : list string := split "spades diamonds clubs hearts".

(** ** The state-and-exception monad of the methods *)

Definition M (A : Type) : Type := FrenchDeck -> outcome A * FrenchDeck.

Definition ret {A : Type} (a : A) : M A := fun self => (Ok a, self).

Definition bind {A B : Type} (m : M A) (k : A -> M B) : M B :=
  fun self =>
    match m self with
    | (Ok a, self') => k a self'
    | (Raise e, self') => (Raise e, self')
    | (OutOfFuel, self') => (OutOfFuel, self')
    end.

Definition get_self : M FrenchDeck := fun self => (Ok self, self).

Definition lift {A : Type} (o : outcome A) : M A := fun self => (o, self).

Notation "x <- m ;; k" := (bind m (fun x => k))
  (at level 100, m at next level, right associativity).

(** ** The methods of [FrenchDeck] *)

(** [__init__]: suits in the outer loop, ranks in the inner one. *)
Definition __init__ : FrenchDeck :=
  {| _cards := flat_map (fun suit => map (fun rank => mkCard rank suit) ranks) suits |}.

Definition __len__ : M Z :=
  self <- get_self ;; ret (len (_cards self)).

(** The type of [deck[position]]: a card for an integer, a list for a slice. *)
Definition item_of (p : position) : Type :=
  match p with
  | Int _ => Card
  | Slice _ _ _ => list Card
  end.

Definition list_getitem (l : list Card) (p : position) : outcome (item_of p) :=
  match p with
  | Int i => @list_item Card l i
  | Slice start stop step => @list_slice Card l start stop step
  end.

Definition __getitem__ (p : position) : M (item_of p) :=
  self <- get_self ;; lift (list_getitem (_cards self) p).

(** ** Iteration

    [FrenchDeck] defines neither [__iter__] nor [__reversed__], so [for card
    in deck] uses the sequence protocol: it asks for [deck[0]], [deck[1]],
    ... until [__getitem__] raises [IndexError], and [reversed(deck)] asks
    for [deck[len(deck) - 1]] down to [deck[0]]. *)

(** [try: m  except IndexError: None] *)
Definition until_IndexError {A : Type} (m : M A) : M (option A) :=
  fun self =>
    match m self with
    | (Ok a, self') => (Ok (Some a), self')
    | (Raise IndexError, self') => (Ok None, self')
    | (Raise e, self') => (Raise e, self')
    | (OutOfFuel, self') => (OutOfFuel, self')
    end.

(** The cards a [for] loop over the deck sees, from index [i] on.  The loop
    has no bound of its own: [fuel] bounds the number of [__getitem__]
    calls. *)
Fixpoint iterate_from (fuel : nat) (i : Z) : M (list Card) :=
  match fuel with
  | O => lift OutOfFuel
  | S fuel' =>
      r <- until_IndexError (__getitem__ (Int i)) ;;
      match r with
      | None => ret []
      | Some card => cards <- iterate_from fuel' (i + 1) ;; ret (card :: cards)
      end
  end.

Definition iterate (fuel : nat) : M (list Card) := iterate_from fuel 0.

(** The cards [reversed(deck)] yields when [n] indices are left. *)
Fixpoint reversed_from (n : nat) : M (list Card) :=
  match n with
  | O => ret []
  | S n' =>
      r <- until_IndexError (__getitem__ (Int (Z.of_nat n'))) ;;
      match r with
      | None => ret []
      | Some card => cards <- reversed_from n' ;; ret (card :: cards)
      end
  end.

Definition reversed : M (list Card) :=
  n <- __len__ ;; reversed_from (Z.to_nat n).

(** ** Sorting

    [sorted(iterable, key=f)] copies the iterable into a list, computes the
    key of every element once, in order, and sorts on the keys with
    comparisons [<] only, keeping elements with equal keys in their
    original order.  Insertion from the right is such a sort, and an
    ascending, stable rearrangement of a list is unique
    ([stable_ascending_unique] below), so the algorithm need not be the
    interpreter's. *)

Fixpoint insert_by_key {A : Type} (x : Z * A) (l : list (Z * A)) : list (Z * A) :=
  match l with
  | [] => [x]
  | y :: l' => if y.1 <? x.1 then y :: insert_by_key x l' else x :: l
  end.

Definition sort_by_key {A : Type} (l : list (Z * A)) : list (Z * A) :=
  foldr insert_by_key [] l.

Definition list_sorted {A : Type} (key : A -> outcome Z) (l : list A)
  : outcome (list A) :=
  obind (omap key l) (fun keys => Ok (map snd (sort_by_key (combine keys l)))).

(** [sorted(deck, key=key)] *)
Definition sorted (fuel : nat) (key : Card -> outcome Z) : M (list Card) :=
  cards <- iterate fuel ;; lift (list_sorted key cards).

(** [l.index(x)] *)
Fixpoint list_index (x : string) (l : list string) : outcome Z :=
  match l with
  | [] => Raise ValueError
  | y :: l' => if String.eqb y x then Ok 0
               else obind (list_index x l') (fun i => Ok (i + 1))
  end.

(** [d[k]] for a dictionary *)
Definition dict_getitem (d : gmap string Z) (k : string) : outcome Z :=
  match d !! k with
  | Some v => Ok v
  | None => Raise KeyError
  end.

Definition suit_vals : gmap string Z :=
  <["spades" := 3]> (<["hearts" := 2]> (<["diamonds" := 1]> (<["clubs" := 0]> ∅))).

Definition spades_high (card : Card) : outcome Z :=
  obind (list_index (rank card) ranks) (fun rank_value =>
  obind (dict_getitem suit_vals (suit card)) (fun suit_value =>
  Ok (rank_value * Z.of_nat (size suit_vals) + suit_value))).

(** ** Random choice

    [random.choice(seq)] is [seq[randbelow(len(seq))]], and [IndexError] on
    an empty sequence; [randbelow] stands for the random source. *)
Definition choice (randbelow : Z -> Z) : M Card :=
  n <- __len__ ;;
  if n =? 0 then lift (Raise IndexError)
  else __getitem__ (Int (randbelow n)).

(** ** Representation

    [repr(card)] of a named tuple is [Card(rank=%r, suit=%r)], and [%r] of
    a string is the string between quotes with the quote, the backslash and
    the unprintable characters escaped. *)

Definition backslash : ascii := "\"%char.
Definition squote : ascii := "'"%char.
Definition dquote : ascii := "034"%char.

Fixpoint contains (c : ascii) (s : string) : bool :=
  match s with
  | EmptyString => false
  | String c' s' => Ascii.eqb c' c || contains c s'
  end.

(** Single quotes, unless the string has a single quote and no double one. *)
Definition repr_quote (s : string) : ascii :=
  if contains squote s && negb (contains dquote s) then dquote else squote.

Definition isprintable (c : ascii) : bool :=
  let n := Z.of_N (N_of_ascii c) in
  ((32 <=? n) && (n <? 127)) || ((161 <=? n) && negb (n =? 173)).

Definition hexdigit (n : Z) : ascii :=
  match String.get (Z.to_nat n) "0123456789abcdef" with
  | Some c => c
  | None => "0"%char
  end.

Definition repr_char (quote c : ascii) : string :=
  if Ascii.eqb c quote || Ascii.eqb c backslash
  then String backslash (String c EmptyString)
  else if Ascii.eqb c "009" then String backslash "t"
  else if Ascii.eqb c "010" then String backslash "n"
  else if Ascii.eqb c "013" then String backslash "r"
  else if negb (isprintable c) then
    let n := Z.of_N (N_of_ascii c) in
    String backslash
      (String "x" (String (hexdigit (n / 16)) (String (hexdigit (n mod 16)) EmptyString)))
  else String c EmptyString.

Fixpoint repr_chars (quote : ascii) (s : string) : string :=
  match s with
  | EmptyString => EmptyString
  | String c s' => repr_char quote c ++ repr_chars quote s'
  end.

(** [repr(s)] for a string *)
Definition str_repr (s : string) : string :=
  let quote := repr_quote s in
  String quote (repr_chars quote s ++ String quote EmptyString).

(** [repr(card)] *)
Definition Card_repr (card : Card) : string :=
  "Card(rank=" ++ str_repr (rank card) ++ ", suit=" ++ str_repr (suit card) ++ ")".

(** ** The public operations, as a caller issues them *)

Inductive operation : Type :=
| Length
| ElementAt (p : position)
| Iterate (fuel : nat)
| IterateReverse
| Sort (fuel : nat) (key : Card -> outcome Z)
| RandomElement (randbelow : Z -> Z)
| Represent (card : Card).

Inductive answer : Type :=
| AnInt (n : Z)
| ACard (card : Card)
| Cards (cards : list Card)
| Text (s : string).

Definition answer_of_item (p : position) : item_of p -> answer :=
  match p with
  | Int _ => ACard
  | Slice _ _ _ => Cards
  end.

Definition perform (o : operation) : M answer :=
  match o with
  | Length => n <- __len__ ;; ret (AnInt n)
  | ElementAt p => x <- __getitem__ p ;; ret (answer_of_item p x)
  | Iterate fuel => cards <- iterate fuel ;; ret (Cards cards)
  | IterateReverse => cards <- reversed ;; ret (Cards cards)
  | Sort fuel key => cards <- sorted fuel key ;; ret (Cards cards)
  | RandomElement randbelow => card <- choice randbelow ;; ret (ACard card)
  | Represent card => ret (Text (Card_repr card))
  end.

(** A caller's session: each operation runs on the deck as the previous one
    left it, whether it returned or raised. *)
Fixpoint session (ops : list operation) (deck : FrenchDeck)
  : list (outcome answer) * FrenchDeck :=
  match ops with
  | [] => ([], deck)
  | o :: ops' =>
      let (r, deck') := perform o deck in
      let (rs, deck'') := session ops' deck' in
      (r :: rs, deck'')
  end.

(** ** The cells that print

    [print(x)] writes [str(x)] to standard output, a line per call.  A named
    tuple defines no [__str__], so [str(card)] is [repr(card)].  A cell runs
    on the deck and on the lines printed so far. *)

Record world : Type := mkWorld { deck : FrenchDeck; stdout : list string }.

Definition IO (A : Type) : Type := world -> outcome A * world.

Definition io_ret {A : Type} (a : A) : IO A := fun w => (Ok a, w).

Definition io_bind {A B : Type} (m : IO A) (k : A -> IO B) : IO B :=
  fun w =>
    match m w with
    | (Ok a, w') => k a w'
    | (Raise e, w') => (Raise e, w')
    | (OutOfFuel, w') => (OutOfFuel, w')
    end.

(** A method of the deck, run inside a cell. *)
Definition on_deck {A : Type} (m : M A) : IO A :=
  fun w =>
    let (r, deck') := m (deck w) in
    (r, {| deck := deck'; stdout := stdout w |}).

Definition Card_str (card : Card) : string := Card_repr card.

Definition print (card : Card) : IO unit :=
  fun w => (Ok tt, {| deck := deck w; stdout := stdout w ++ [Card_str card] |}).

(** [for card in deck: body(card)], from index [i] on. *)
Fixpoint for_in_deck (fuel : nat) (i : Z) (body : Card -> IO unit) : IO unit :=
  match fuel with
  | O => fun w => (OutOfFuel, w)
  | S fuel' =>
      io_bind (on_deck (until_IndexError (__getitem__ (Int i)))) (fun r =>
      match r with
      | None => io_ret tt
      | Some card =>
          io_bind (body card) (fun _ => for_in_deck fuel' (i + 1) body)
      end)
  end.

(** [for card in reversed(deck): body(card)] with [n] indices left. *)
Fixpoint for_in_reversed_from (n : nat) (body : Card -> IO unit) : IO unit :=
  match n with
  | O => io_ret tt
  | S n' =>
      io_bind (on_deck (until_IndexError (__getitem__ (Int (Z.of_nat n'))))) (fun r =>
      match r with
      | None => io_ret tt
      | Some card =>
          io_bind (body card) (fun _ => for_in_reversed_from n' body)
      end)
  end.

Definition for_in_reversed (body : Card -> IO unit) : IO unit :=
  io_bind (on_deck __len__) (fun n => for_in_reversed_from (Z.to_nat n) body).

(** [for card in cards: body(card)] for a list. *)
Fixpoint for_in_list (cards : list Card) (body : Card -> IO unit) : IO unit :=
  match cards with
  | [] => io_ret tt
  | card :: cards' => io_bind (body card) (fun _ => for_in_list cards' body)
  end.

(** [for card in deck: print(card)] *)
Definition print_deck (fuel : nat) : IO unit := for_in_deck fuel 0 print.

(** [for reversed_card in reversed(deck): print(reversed_card)] *)
Definition print_reversed : IO unit := for_in_reversed print.

(** [for sorted_card in sorted(deck, key=spades_high): print(sorted_card)] *)
Definition print_sorted (fuel : nat) : IO unit :=
  io_bind (on_deck (sorted fuel spades_high)) (fun cards => for_in_list cards print).

(** ** The [Card] class of the notes on [__repr__] and [__str__]

    Its two attributes are strings, as in [Card("7", "hearts")]; an f-string
    formats a string as itself and, with [!r], as its [repr]. *)

Module NotesCard.
Definition __repr__ (self : Card) : string :=
  "Card(" ++ str_repr (rank self) ++ ", " ++ str_repr (suit self) ++ ")".

Definition __str__ (self : Card) : string :=
  rank self ++ " of " ++ suit self.
End NotesCard.

(** ** Predicates and functions of the statements and proofs *)

(** [m] returns the deck it was given. *)
Definition read_only {A : Type} (m : M A) : Prop :=
  forall deck, (m deck).2 = deck.

(** Keys in non-decreasing order. *)
Fixpoint ascending {A : Type} (l : list (Z * A)) : Prop :=
  match l with
  | [] => True
  | x :: l' => Forall (fun y => x.1 <= y.1) l' /\ ascending l'
  end.

(** Each element is paired with its own key. *)
Definition keyed {A : Type} (key : A -> outcome Z) (l : list (Z * A)) : Prop :=
  Forall (fun p => key p.2 = Ok p.1) l.

(** Reading back one escaped character: the inverse of [repr_char], used to
    show that the escapes form a prefix code. *)
Definition hexvalue (c : ascii) : Z :=
  let n := Z.of_N (N_of_ascii c) in
  if (48 <=? n) && (n <=? 57) then n - 48 else n - 87.

Definition unescape (s : string) : option (ascii * string) :=
  match s with
  | EmptyString => None
  | String c rest =>
      if Ascii.eqb c backslash then
        match rest with
        | EmptyString => None
        | String e rest' =>
            if Ascii.eqb e "t" then Some ("009"%char, rest')
            else if Ascii.eqb e "n" then Some ("010"%char, rest')
            else if Ascii.eqb e "r" then Some ("013"%char, rest')
            else if Ascii.eqb e "x" then
              match rest' with
              | String h1 (String h2 rest'') =>
                  Some (ascii_of_N (Z.to_N (16 * hexvalue h1 + hexvalue h2)), rest'')
              | _ => None
              end
            else Some (e, rest')
        end
      else Some (c, rest)
  end.

Definition is_quote (q : ascii) : Prop := q = squote \/ q = dquote.

(** A string that [repr] shows as it is: printable characters, none of them
    the single quote or the backslash. *)
Definition plain_char (c : ascii) : bool :=
  isprintable c && negb (Ascii.eqb c squote) && negb (Ascii.eqb c backslash).

Fixpoint plain (s : string) : bool :=
  match s with
  | EmptyString => true
  | String c s' => plain_char c && plain s'
  end.

(** * Properties *)

(** ** Operations that only read the deck *)

Create HintDb read_only.

Lemma read_only_ret {A : Type} (a : A) : read_only (ret a).
Proof. intros deck. reflexivity. Qed.

Lemma read_only_lift {A : Type} (o : outcome A) : read_only (lift o).
Proof. intros deck. reflexivity. Qed.

Lemma read_only_get_self : read_only get_self.
Proof. intros deck. reflexivity. Qed.

Lemma read_only_bind {A B : Type} (m : M A) (k : A -> M B) :
  read_only m -> (forall a, read_only (k a)) -> read_only (bind m k).
Proof.
  intros Hm Hk deck. unfold bind.
  specialize (Hm deck). destruct (m deck) as [[a | e |] deck']; simpl in *; subst.
  - apply Hk.
  - reflexivity.
  - reflexivity.
Qed.

Lemma read_only_until_IndexError {A : Type} (m : M A) :
  read_only m -> read_only (until_IndexError m).
Proof.
  intros Hm deck. unfold until_IndexError.
  specialize (Hm deck). destruct (m deck) as [[a | [] |] deck']; simpl in *; congruence.
Qed.

#[local] Hint Resolve read_only_ret read_only_lift read_only_get_self
  read_only_bind read_only_until_IndexError : read_only.

Lemma read_only_len : read_only __len__.
Proof. unfold __len__. auto with read_only. Qed.

Lemma read_only_getitem (p : position) : read_only (__getitem__ p).
Proof. unfold __getitem__. auto with read_only. Qed.

#[local] Hint Resolve read_only_len read_only_getitem : read_only.

Lemma read_only_iterate_from (fuel : nat) :
  forall i, read_only (iterate_from fuel i).
Proof.
  induction fuel as [| fuel IH]; intros i; simpl.
  - auto with read_only.
  - apply read_only_bind; [auto with read_only |].
    intros [card |]; auto with read_only.
Qed.

Lemma read_only_reversed_from (n : nat) : read_only (reversed_from n).
Proof.
  induction n as [| n IH]; simpl.
  - auto with read_only.
  - apply read_only_bind; [auto with read_only |].
    intros [card |]; auto with read_only.
Qed.

#[local] Hint Resolve read_only_iterate_from read_only_reversed_from : read_only.

Lemma read_only_iterate (fuel : nat) : read_only (iterate fuel).
Proof. unfold iterate. auto with read_only. Qed.

Lemma read_only_reversed : read_only reversed.
Proof. unfold reversed. auto with read_only. Qed.

#[local] Hint Resolve read_only_iterate read_only_reversed : read_only.

Lemma read_only_sorted (fuel : nat) (key : Card -> outcome Z) :
  read_only (sorted fuel key).
Proof. unfold sorted. auto with read_only. Qed.

Lemma read_only_choice (randbelow : Z -> Z) : read_only (choice randbelow).
Proof.
  unfold choice. apply read_only_bind; [auto with read_only |].
  intros n. destruct (n =? 0); auto with read_only.
Qed.

#[local] Hint Resolve read_only_sorted read_only_choice : read_only.

Lemma read_only_perform (o : operation) : read_only (perform o).
Proof. destruct o; simpl; auto with read_only. Qed.

(** What the two methods return, without the monad. *)
Lemma len_eq (deck : FrenchDeck) :
  __len__ deck = (Ok (len (_cards deck)), deck).
Proof. reflexivity. Qed.

Lemma getitem_eq (p : position) (deck : FrenchDeck) :
  __getitem__ p deck = (list_getitem (_cards deck) p, deck).
Proof. reflexivity. Qed.

Lemma getitem_Int (i : Z) (deck : FrenchDeck) :
  @eq (outcome Card * FrenchDeck)
    (__getitem__ (Int i) deck) (@list_item Card (_cards deck) i, deck).
Proof. reflexivity. Qed.

Lemma getitem_Slice (start stop step : option Z) (deck : FrenchDeck) :
  @eq (outcome (list Card) * FrenchDeck)
    (__getitem__ (Slice start stop step) deck)
    (@list_slice Card (_cards deck) start stop step, deck).
Proof. reflexivity. Qed.

(** ** Indexing a list *)

Section list_item.
Context {A : Type}.
Implicit Types (l : list A) (i : Z).

Lemma len_nonneg l : 0 <= len l.
Proof. unfold len. lia. Qed.

Lemma list_item_in_range l i :
  0 <= normalize (len l) i < len l ->
  exists a, l !! Z.to_nat (normalize (len l) i) = Some a /\ list_item l i = Ok a.
Proof.
  intros Hi. unfold list_item.
  destruct (lookup_lt_is_Some_2 l (Z.to_nat (normalize (len l) i))) as [a Ha].
  { unfold len in *. lia. }
  exists a. split; [exact Ha |].
  cbv zeta. rewrite Ha.
  replace (normalize (len l) i <? 0) with false by lia.
  replace (len l <=? normalize (len l) i) with false by lia.
  reflexivity.
Qed.

Lemma list_item_out_of_range l i :
  ~ (0 <= normalize (len l) i < len l) -> list_item l i = Raise IndexError.
Proof.
  intros Hi. unfold list_item. cbv zeta.
  destruct (normalize (len l) i <? 0) eqn:E1; [reflexivity |].
  destruct (len l <=? normalize (len l) i) eqn:E2; [reflexivity |].
  lia.
Qed.

Lemma list_item_IndexError_iff l i :
  list_item l i = Raise IndexError <-> ~ (0 <= normalize (len l) i < len l).
Proof.
  split.
  - intros Hraise Hi.
    destruct (list_item_in_range l i Hi) as (a & _ & Ha). congruence.
  - apply list_item_out_of_range.
Qed.

(** A position that is not negative needs no normalization. *)
Lemma list_item_lookup l (n : nat) a :
  l !! n = Some a -> list_item l (Z.of_nat n) = Ok a.
Proof.
  intros Hn. pose proof (lookup_lt_Some _ _ _ Hn) as Hlt.
  assert (Hnorm : normalize (len l) (Z.of_nat n) = Z.of_nat n).
  { unfold normalize. replace (Z.of_nat n <? 0) with false by lia. reflexivity. }
  destruct (list_item_in_range l (Z.of_nat n)) as (a' & Ha' & ->).
  { rewrite Hnorm. unfold len. lia. }
  rewrite Hnorm, Nat2Z.id in Ha'. congruence.
Qed.

(** [l[i]] depends on [i] through its normal form only. *)
Lemma list_item_same_normal_form l i j :
  normalize (len l) i = normalize (len l) j -> list_item l i = list_item l j.
Proof. intros Hij. unfold list_item. by rewrite Hij. Qed.

Lemma list_item_raises_only_IndexError l i e :
  list_item l i = Raise e -> e = IndexError.
Proof.
  unfold list_item. cbv zeta.
  destruct (_ || _); [congruence |].
  destruct (l !! _); congruence.
Qed.

Lemma list_item_never_OutOfFuel l i : list_item l i <> OutOfFuel.
Proof.
  unfold list_item. cbv zeta.
  destruct (_ || _); [congruence |].
  destruct (l !! _); congruence.
Qed.
End list_item.

(** ** Comprehensions and ranges *)

Section omap.
Context {A B : Type}.
Implicit Types (f g : A -> outcome B) (l : list A).

Lemma omap_ext f g l :
  (forall x, x ∈ l -> f x = g x) -> omap f l = omap g l.
Proof.
  induction l as [| x l IH]; intros Hfg; simpl; [reflexivity |].
  rewrite Hfg by apply list_elem_of_here.
  rewrite IH; [reflexivity |].
  intros y Hy. apply Hfg. by apply list_elem_of_further.
Qed.

Lemma omap_all_Ok f l :
  (forall x, x ∈ l -> exists y, f x = Ok y) -> exists ys, omap f l = Ok ys.
Proof.
  induction l as [| x l IH]; intros Hf; simpl.
  - by exists [].
  - destruct (Hf x) as [y Hy]; [apply list_elem_of_here |].
    destruct IH as [ys Hys].
    { intros z Hz. apply Hf. by apply list_elem_of_further. }
    exists (y :: ys). by rewrite Hy, Hys.
Qed.

Lemma omap_Ok_length f l ys : omap f l = Ok ys -> length ys = length l.
Proof.
  revert ys. induction l as [| x l IH]; intros ys; simpl.
  - by intros [= <-].
  - destruct (f x) as [y | |]; simpl; try discriminate.
    destruct (omap f l) as [ys' | |]; simpl; try discriminate.
    intros [= <-]. simpl. f_equal. by apply IH.
Qed.
End omap.

Lemma omap_map {A B C : Type} (f : B -> outcome C) (g : A -> B) (l : list A) :
  omap f (map g l) = omap (fun x => f (g x)) l.
Proof.
  induction l as [| x l IH]; simpl; [reflexivity |]. by rewrite IH.
Qed.

Lemma elem_of_range (lo hi k : Z) : k ∈ range lo hi <-> lo <= k < hi.
Proof.
  unfold range. rewrite list_elem_of_fmap. split.
  - intros (i & -> & Hi). apply elem_of_seq in Hi. lia.
  - intros Hk. exists (Z.to_nat (k - lo)). split; [lia |].
    apply elem_of_seq. lia.
Qed.

(** ** Slicing a list *)

Lemma adjust_index_bounds (n step i : Z) :
  0 <= n ->
  if step <? 0 then -1 <= adjust_index n step i <= n - 1
  else 0 <= adjust_index n step i <= n.
Proof.
  intros Hn. unfold adjust_index.
  destruct (step <? 0); repeat case_match; lia.
Qed.

Lemma slice_start_bounds (n step : Z) (start : option Z) :
  0 <= n ->
  if step <? 0 then -1 <= slice_start n step start <= n - 1
  else 0 <= slice_start n step start <= n.
Proof.
  intros Hn. destruct start as [i |]; simpl.
  - by apply adjust_index_bounds.
  - destruct (step <? 0); lia.
Qed.

Lemma slice_stop_bounds (n step : Z) (stop : option Z) :
  0 <= n ->
  if step <? 0 then -1 <= slice_stop n step stop <= n - 1
  else 0 <= slice_stop n step stop <= n.
Proof.
  intros Hn. destruct stop as [i |]; simpl.
  - by apply adjust_index_bounds.
  - destruct (step <? 0); lia.
Qed.

(** Every index a slice visits is a valid, non-negative index. *)
Lemma slice_index_in_range (n step : Z) (start stop : option Z) (k : Z) :
  0 <= n -> step <> 0 ->
  0 <= k < slice_length (slice_start n step start) (slice_stop n step stop) step ->
  0 <= slice_start n step start + k * step < n.
Proof.
  intros Hn Hstep.
  pose proof (slice_start_bounds n step start Hn) as Hs.
  pose proof (slice_stop_bounds n step stop Hn) as Ht.
  set (a := slice_start n step start) in *.
  set (b := slice_stop n step stop) in *.
  unfold slice_length.
  destruct (step <? 0) eqn:Eneg.
  - destruct (b <? a) eqn:Eba; [| lia].
    intros Hk.
    assert (Hd : - step * ((a - b - 1) / - step) <= a - b - 1)
      by (apply Z.mul_div_le; lia).
    nia.
  - destruct (a <? b) eqn:Eab; [| lia].
    intros Hk.
    assert (Hd : step * ((b - a - 1) / step) <= b - a - 1)
      by (apply Z.mul_div_le; lia).
    nia.
Qed.

Lemma list_slice_Ok {A : Type} (l : list A) (start stop step : option Z) :
  default 1 step <> 0 -> exists xs, list_slice l start stop step = Ok xs.
Proof.
  intros Hstep. unfold list_slice. cbv zeta.
  destruct (default 1 step =? 0) eqn:E; [lia |].
  apply omap_all_Ok. intros k Hk. apply elem_of_range in Hk.
  pose proof (slice_index_in_range (len l) (default 1 step) start stop k
                (len_nonneg l) Hstep Hk) as Hin.
  destruct (list_item_in_range l (slice_start (len l) (default 1 step) start
                                   + k * default 1 step)) as (a & _ & Ha).
  { unfold normalize. case_match; lia. }
  by exists a.
Qed.

Lemma list_slice_zero_step {A : Type} (l : list A) (start stop : option Z) :
  list_slice l start stop (Some 0) = Raise ValueError.
Proof. reflexivity. Qed.

Lemma list_slice_never_IndexError {A : Type} (l : list A) (start stop step : option Z) :
  list_slice l start stop step <> Raise IndexError.
Proof.
  destruct (decide (default 1 step = 0)) as [Hz | Hnz].
  - unfold list_slice. cbv zeta. rewrite Hz. simpl. congruence.
  - destruct (list_slice_Ok l start stop step Hnz) as [xs ->]. congruence.
Qed.

(** The cards at [s], [s + 1], ..., [s + c - 1]. *)
Lemma omap_list_item_seq {A : Type} (l : list A) (c : nat) :
  forall s : nat, (s + c <= length l)%nat ->
  omap (fun i : nat => list_item l (Z.of_nat i)) (seq s c) = Ok (take c (drop s l)).
Proof.
  induction c as [| c IH]; intros s Hs; simpl; [reflexivity |].
  destruct (lookup_lt_is_Some_2 l s) as [a Ha]; [lia |].
  rewrite (list_item_lookup l s a Ha). simpl.
  rewrite IH by lia. simpl.
  by rewrite (drop_S l a s Ha).
Qed.

(** [l[:n]] and [l[0:n]] are the first [n] elements. *)
Lemma list_slice_prefix {A : Type} (l : list A) (start : option Z) (n : Z) :
  start = None \/ start = Some 0 -> 0 <= n ->
  list_slice l start (Some n) None = Ok (take (Z.to_nat n) l).
Proof.
  intros Hstart Hn. unfold list_slice. cbv zeta. simpl default.
  replace (1 =? 0) with false by reflexivity.
  assert (Hs : slice_start (len l) 1 start = 0).
  { destruct Hstart as [-> | ->]; [reflexivity |].
    pose proof (len_nonneg l). unfold slice_start, adjust_index.
    repeat case_match; lia. }
  rewrite Hs.
  set (m := slice_stop (len l) 1 (Some n)).
  assert (Hm : m = Z.min n (len l)).
  { subst m. pose proof (len_nonneg l). unfold slice_stop, adjust_index.
    repeat case_match; lia. }
  assert (Hlen : slice_length 0 m 1 = m).
  { pose proof (len_nonneg l). unfold slice_length.
    replace (1 <? 0) with false by reflexivity.
    case_match; [rewrite Z.div_1_r |]; lia. }
  rewrite Hlen. unfold range. rewrite omap_map.
  rewrite (omap_ext _ (fun i : nat => list_item l (Z.of_nat i))).
  2:{ intros i _. f_equal. lia. }
  rewrite omap_list_item_seq by (unfold len in *; lia).
  rewrite drop_0. f_equal.
  destruct (decide (n <= len l)) as [Hle | Hgt].
  - f_equal. lia.
  - rewrite !take_ge; [reflexivity | |]; unfold len in *; lia.
Qed.

(** ** Iteration *)

(** With enough fuel the [for] loop started at index [s] sees the cards from
    [s] on, and stops at the [IndexError] of index [len(deck)]. *)
Lemma iterate_from_drop (deck : FrenchDeck) (fuel : nat) :
  forall s : nat,
    (s <= length (_cards deck))%nat ->
    (length (_cards deck) - s < fuel)%nat ->
    iterate_from fuel (Z.of_nat s) deck = (Ok (drop s (_cards deck)), deck).
Proof.
  induction fuel as [| fuel IH]; intros s Hs Hfuel; [lia |].
  simpl. unfold bind, until_IndexError. rewrite getitem_eq. simpl.
  destruct (decide (s < length (_cards deck))%nat) as [Hlt | Hge].
  - destruct (lookup_lt_is_Some_2 (_cards deck) s Hlt) as [card Hcard].
    rewrite (list_item_lookup _ s card Hcard).
    replace (Z.of_nat s + 1) with (Z.of_nat (S s)) by lia.
    rewrite IH by lia. simpl.
    by rewrite (drop_S _ card s Hcard).
  - rewrite list_item_out_of_range.
    + rewrite drop_ge by lia. reflexivity.
    + unfold normalize, len. case_match; lia.
Qed.

(** With less fuel the loop is cut short. *)
Lemma iterate_from_out_of_fuel (deck : FrenchDeck) (fuel : nat) :
  forall s : nat,
    (s + fuel <= length (_cards deck))%nat ->
    iterate_from fuel (Z.of_nat s) deck = (OutOfFuel, deck).
Proof.
  induction fuel as [| fuel IH]; intros s Hs; [reflexivity |].
  simpl. unfold bind, until_IndexError. rewrite getitem_Int.
  destruct (lookup_lt_is_Some_2 (_cards deck) s) as [card Hcard]; [lia |].
  rewrite (list_item_lookup _ s card Hcard).
  replace (Z.of_nat s + 1) with (Z.of_nat (S s)) by lia.
  by rewrite IH by lia.
Qed.

Lemma iterate_all (deck : FrenchDeck) (fuel : nat) :
  (length (_cards deck) < fuel)%nat ->
  iterate fuel deck = (Ok (_cards deck), deck).
Proof.
  intros Hfuel. unfold iterate.
  change 0 with (Z.of_nat 0). rewrite iterate_from_drop by lia.
  by rewrite drop_0.
Qed.

Lemma iterate_Ok (deck : FrenchDeck) (fuel : nat) (cards : list Card) :
  (iterate fuel deck).1 = Ok cards ->
  (length (_cards deck) < fuel)%nat /\ cards = _cards deck.
Proof.
  destruct (decide (length (_cards deck) < fuel)%nat) as [Hlt | Hge].
  - rewrite iterate_all by assumption. cbn [fst]. intros [= <-]. done.
  - unfold iterate. change 0 with (Z.of_nat 0).
    rewrite iterate_from_out_of_fuel by lia. discriminate.
Qed.

Lemma reversed_from_take (deck : FrenchDeck) (n : nat) :
  (n <= length (_cards deck))%nat ->
  reversed_from n deck = (Ok (reverse (take n (_cards deck))), deck).
Proof.
  induction n as [| n IH]; intros Hn; [reflexivity |].
  simpl. unfold bind, until_IndexError. rewrite getitem_eq. simpl.
  destruct (lookup_lt_is_Some_2 (_cards deck) n) as [card Hcard]; [lia |].
  rewrite (list_item_lookup _ n card Hcard).
  rewrite IH by lia. simpl.
  by rewrite (take_S_r _ n card Hcard), reverse_snoc.
Qed.

Lemma reversed_all (deck : FrenchDeck) :
  reversed deck = (Ok (reverse (_cards deck)), deck).
Proof.
  unfold reversed, bind. rewrite len_eq. unfold len. rewrite Nat2Z.id.
  rewrite reversed_from_take by lia. by rewrite firstn_all.
Qed.

(** ** Sorting *)

Section sort_by_key.
Context {A : Type}.
Implicit Types (x y : Z * A) (l : list (Z * A)).

Lemma insert_by_key_Forall (P : Z * A -> Prop) x l :
  P x -> Forall P l -> Forall P (insert_by_key x l).
Proof.
  intros Hx Hl. induction Hl as [| y l Hy Hl IH]; simpl.
  - by constructor.
  - destruct (y.1 <? x.1); repeat constructor; assumption.
Qed.

Lemma sort_by_key_Forall (P : Z * A -> Prop) l :
  Forall P l -> Forall P (sort_by_key l).
Proof.
  induction 1 as [| x l Hx Hl IH]; simpl; [constructor |].
  by apply insert_by_key_Forall.
Qed.

Lemma insert_by_key_ascending x l :
  ascending l -> ascending (insert_by_key x l).
Proof.
  induction l as [| y l IH]; simpl; intros Hl.
  - split; [constructor | exact I].
  - destruct Hl as [Hy Hl]. destruct (y.1 <? x.1) eqn:E; simpl.
    + split; [| by apply IH].
      apply insert_by_key_Forall; [lia | assumption].
    + split; [| by split].
      constructor; [lia |].
      eapply Forall_impl; [exact Hy |]. simpl. intros z Hz. lia.
Qed.

Lemma sort_by_key_ascending l : ascending (sort_by_key l).
Proof.
  induction l as [| x l IH]; simpl; [exact I |].
  by apply insert_by_key_ascending.
Qed.

(** An element not above the rest of an ascending list goes in front. *)
Lemma insert_by_key_front x l :
  Forall (fun y => x.1 <= y.1) l -> insert_by_key x l = x :: l.
Proof.
  destruct 1 as [| y l Hy _]; simpl; [reflexivity |].
  by replace (y.1 <? x.1) with false by lia.
Qed.

Lemma sort_by_key_fixed l : ascending l -> sort_by_key l = l.
Proof.
  induction l as [| x l IH]; simpl; [reflexivity |].
  intros [Hx Hl]. rewrite IH by assumption.
  by apply insert_by_key_front.
Qed.

Lemma sort_by_key_idempotent l : sort_by_key (sort_by_key l) = sort_by_key l.
Proof. apply sort_by_key_fixed, sort_by_key_ascending. Qed.

Lemma insert_by_key_Permutation x l : insert_by_key x l ≡ₚ x :: l.
Proof.
  induction l as [| y l IH]; simpl; [reflexivity |].
  destruct (y.1 <? x.1); [| reflexivity].
  rewrite IH. apply Permutation_swap.
Qed.

Lemma sort_by_key_Permutation l : sort_by_key l ≡ₚ l.
Proof.
  induction l as [| x l IH]; simpl; [reflexivity |].
  by rewrite insert_by_key_Permutation, IH.
Qed.

(** Stability: the elements of any one key keep their order. *)
Lemma insert_by_key_filter (k : Z) x l :
  filter (fun y => y.1 = k) (insert_by_key x l)
  = filter (fun y => y.1 = k) (x :: l).
Proof.
  induction l as [| y l IH]; simpl; [reflexivity |].
  destruct (y.1 <? x.1) eqn:E; [| reflexivity].
  rewrite filter_cons, IH, !filter_cons.
  repeat case_decide; try reflexivity; lia.
Qed.

Lemma sort_by_key_filter (k : Z) l :
  filter (fun y => y.1 = k) (sort_by_key l) = filter (fun y => y.1 = k) l.
Proof.
  induction l as [| x l IH]; simpl; [reflexivity |].
  by rewrite insert_by_key_filter, !filter_cons, IH.
Qed.

(** Ascending order and stability leave one answer only, so any stable
    sort returns what [sort_by_key] returns. *)
Lemma stable_ascending_unique l1 :
  forall l2,
    ascending l1 -> ascending l2 ->
    (forall k : Z, filter (fun y => y.1 = k) l1 = filter (fun y => y.1 = k) l2) ->
    l1 = l2.
Proof.
  induction l1 as [| x l1 IH]; intros [| y l2] Hasc1 Hasc2 Hsame.
  - reflexivity.
  - specialize (Hsame y.1). rewrite filter_cons in Hsame.
    case_decide; [discriminate | done].
  - specialize (Hsame x.1). rewrite filter_cons in Hsame.
    case_decide; [discriminate | done].
  - destruct Hasc1 as [Hx Hasc1], Hasc2 as [Hy Hasc2].
    assert (Hxy : x = y).
    { pose proof (Hsame x.1) as Hkx. pose proof (Hsame y.1) as Hky.
      rewrite !filter_cons in Hkx, Hky.
      destruct (decide (x.1 = y.1)) as [Heq | Hne].
      - rewrite Heq in Hkx. repeat case_decide; try done. congruence.
      - exfalso.
        assert (Hin2 : x ∈ l2).
        { repeat case_decide; try done.
          assert (Hin : x ∈ filter (fun z : Z * A => z.1 = x.1) l2)
            by (rewrite <- Hkx; apply list_elem_of_here).
          by apply list_elem_of_filter in Hin as [_ Hin]. }
        assert (Hin1 : y ∈ l1).
        { repeat case_decide; try done.
          assert (Hin : y ∈ filter (fun z : Z * A => z.1 = y.1) l1)
            by (rewrite Hky; apply list_elem_of_here).
          by apply list_elem_of_filter in Hin as [_ Hin]. }
        pose proof (proj1 (Forall_forall _ _) Hx y Hin1).
        pose proof (proj1 (Forall_forall _ _) Hy x Hin2).
        simpl in *. lia. }
    subst y. f_equal. apply IH; try assumption.
    intros k. specialize (Hsame k). rewrite !filter_cons in Hsame.
    case_decide; congruence.
Qed.

Lemma combine_fst_snd l : combine (map fst l) (map snd l) = l.
Proof.
  induction l as [| [k a] l IH]; simpl; [reflexivity |]. by rewrite IH.
Qed.
End sort_by_key.

Section list_sorted.
Context {A : Type} (key : A -> outcome Z).

Lemma omap_key_keyed (l : list A) (keys : list Z) :
  omap key l = Ok keys -> keyed key (combine keys l).
Proof.
  revert keys. induction l as [| a l IH]; intros keys; simpl.
  - intros [= <-]. constructor.
  - destruct (key a) as [k | |] eqn:Ek; simpl; try discriminate.
    destruct (omap key l) as [ks | |]; simpl; try discriminate.
    intros [= <-]. simpl. constructor; [exact Ek | by apply IH].
Qed.

Lemma omap_key_combine (l : list A) (keys : list Z) :
  omap key l = Ok keys -> map snd (combine keys l) = l.
Proof.
  intros Hk. pose proof (omap_Ok_length _ _ _ Hk) as Hlen.
  clear Hk. revert keys Hlen.
  induction l as [| a l IH]; intros [| k keys]; simpl; try discriminate;
    try reflexivity.
  intros [= Hlen]. by rewrite IH.
Qed.

Lemma keyed_omap (ps : list (Z * A)) :
  keyed key ps -> omap key (map snd ps) = Ok (map fst ps).
Proof.
  induction 1 as [| p ps Hp Hps IH]; simpl; [reflexivity |].
  by rewrite Hp, IH.
Qed.

Lemma keyed_filter (k : Z) (ps : list (Z * A)) :
  keyed key ps ->
  filter (fun a => key a = Ok k) (map snd ps)
  = map snd (filter (fun p : Z * A => p.1 = k) ps).
Proof.
  induction 1 as [| p ps Hp Hps IH]; simpl; [reflexivity |].
  rewrite !filter_cons, IH, Hp.
  repeat case_decide; try reflexivity; congruence.
Qed.

Lemma list_sorted_idempotent (l once : list A) :
  list_sorted key l = Ok once -> list_sorted key once = Ok once.
Proof.
  unfold list_sorted.
  destruct (omap key l) as [keys | |] eqn:Ek; simpl; try discriminate.
  intros [= <-].
  pose proof (sort_by_key_Forall _ _ (omap_key_keyed _ _ Ek)) as Hkeyed.
  rewrite (keyed_omap _ Hkeyed). simpl.
  by rewrite combine_fst_snd, sort_by_key_idempotent.
Qed.

Lemma list_sorted_stable (l once : list A) (k : Z) :
  list_sorted key l = Ok once ->
  filter (fun a => key a = Ok k) once = filter (fun a => key a = Ok k) l.
Proof.
  unfold list_sorted.
  destruct (omap key l) as [keys | |] eqn:Ek; simpl; try discriminate.
  intros [= <-].
  pose proof (omap_key_keyed _ _ Ek) as Hkeyed.
  rewrite (keyed_filter k _ (sort_by_key_Forall _ _ Hkeyed)).
  rewrite sort_by_key_filter, <- (keyed_filter k _ Hkeyed).
  by rewrite (omap_key_combine _ _ Ek).
Qed.

Lemma list_sorted_Permutation (l once : list A) :
  list_sorted key l = Ok once -> once ≡ₚ l.
Proof.
  unfold list_sorted.
  destruct (omap key l) as [keys | |] eqn:Ek; simpl; try discriminate.
  intros [= <-].
  rewrite sort_by_key_Permutation. by rewrite (omap_key_combine _ _ Ek).
Qed.
End list_sorted.

(** ** Representation *)

Lemma string_app_nil (t : string) : (EmptyString ++ t)%string = t.
Proof. reflexivity. Qed.

Lemma string_app_cons (c : ascii) (s t : string) :
  (String c s ++ t)%string = String c (s ++ t)%string.
Proof. reflexivity. Qed.

Lemma string_app_assoc (s1 s2 s3 : string) :
  ((s1 ++ s2) ++ s3 = s1 ++ (s2 ++ s3))%string.
Proof.
  induction s1 as [| c s1 IH]; [reflexivity |].
  rewrite !string_app_cons. f_equal. exact IH.
Qed.

Ltac string_app := rewrite ?string_app_cons, ?string_app_nil in *.

Lemma repr_quote_is_quote (s : string) : is_quote (repr_quote s).
Proof.
  unfold repr_quote, is_quote. destruct (_ && _); auto.
Qed.

Lemma unescape_repr_char (q c : ascii) (rest : string) :
  is_quote q -> unescape (repr_char q c ++ rest)%string = Some (c, rest).
Proof.
  intros [-> | ->];
    destruct c as [[] [] [] [] [] [] [] []]; vm_compute; reflexivity.
Qed.

(** No escape starts with the quote. *)
Lemma repr_char_head (q c : ascii) :
  is_quote q -> exists a r, repr_char q c = String a r /\ a <> q.
Proof.
  intros [-> | ->];
    destruct c as [[] [] [] [] [] [] [] []];
    vm_compute; eexists _, _; (split; [reflexivity | discriminate]).
Qed.

(** The escaped body of a string, closed by its quote, can be read back in
    one way only. *)
Lemma repr_chars_unique (q : ascii) :
  is_quote q ->
  forall s1 s2 t1 t2 : string,
    (repr_chars q s1 ++ String q t1 = repr_chars q s2 ++ String q t2)%string ->
    s1 = s2 /\ t1 = t2.
Proof.
  intros Hq. induction s1 as [| c1 s1 IH]; intros [| c2 s2] t1 t2; simpl.
  - string_app. by intros [= ->].
  - destruct (repr_char_head q c2 Hq) as (a & r & -> & Ha).
    string_app. congruence.
  - destruct (repr_char_head q c1 Hq) as (a & r & -> & Ha).
    string_app. congruence.
  - rewrite !string_app_assoc. intros Heq.
    apply (f_equal unescape) in Heq.
    rewrite !unescape_repr_char in Heq by assumption.
    injection Heq as -> Heq. apply IH in Heq as [-> ->]. done.
Qed.

Lemma str_repr_unique (s1 s2 t1 t2 : string) :
  (str_repr s1 ++ t1 = str_repr s2 ++ t2)%string -> s1 = s2 /\ t1 = t2.
Proof.
  unfold str_repr. cbv zeta. string_app. intros [= Hq Heq].
  rewrite <- Hq in Heq. rewrite !string_app_assoc in Heq. string_app.
  by apply (repr_chars_unique _ (repr_quote_is_quote s1)) in Heq.
Qed.

Lemma string_app_inv_head (p s t : string) :
  (p ++ s = p ++ t)%string -> s = t.
Proof.
  induction p as [| c p IH]; [by rewrite !string_app_nil |].
  rewrite !string_app_cons. intros [= Heq]. by apply IH.
Qed.

Lemma Card_repr_injective (card1 card2 : Card) :
  Card_repr card1 = Card_repr card2 -> card1 = card2.
Proof.
  destruct card1 as [rank1 suit1], card2 as [rank2 suit2].
  unfold Card_repr. simpl rank. simpl suit. intros Heq.
  apply string_app_inv_head, str_repr_unique in Heq as [-> Heq].
  apply string_app_inv_head, str_repr_unique in Heq as [-> _].
  reflexivity.
Qed.

(** ** Construction *)

(** Position [s * |ys| + r] of a comprehension with [xs] in the outer loop
    and [ys] in the inner one holds the pair of [xs[s]] and [ys[r]]. *)
Lemma lookup_nested_loops {X Y C : Type} (f : X -> Y -> C) (ys : list Y) :
  forall (xs : list X) (s r : nat) (x : X) (y : Y),
    xs !! s = Some x -> ys !! r = Some y ->
    flat_map (fun x => map (f x) ys) xs !! (s * length ys + r)%nat = Some (f x y).
Proof.
  induction xs as [| x0 xs IH]; intros s r x y Hs Hr; [by destruct s |].
  simpl. destruct s as [| s]; simpl in Hs.
  - injection Hs as ->. simpl.
    rewrite lookup_app_l by (rewrite length_map; eapply lookup_lt_Some, Hr).
    by rewrite list_lookup_fmap, Hr.
  - rewrite lookup_app_r by (rewrite length_map; simpl; lia).
    rewrite length_map.
    replace (S s * length ys + r - length ys)%nat with (s * length ys + r)%nat
      by (simpl; lia).
    by apply IH.
Qed.

(** * The specification's properties *)

(** C1: the constructed deck has length 52, the size of the cross product of
    the 13 ranks and the 4 suits. *)
Theorem length_is_52 :
  __len__ __init__ = (Ok 52, __init__)
  /\ len ranks = 13 /\ len suits = 4
  /\ len (_cards __init__) = len ranks * len suits.
Proof. repeat split; vm_compute; reflexivity. Qed.

(** C2: construction runs the suits in the outer loop and the ranks in the
    inner one: the card of the [r]-th rank and the [s]-th suit is at
    position [s * 13 + r]; so position 0 holds the 2 of spades. *)
Theorem construction_order (s r : nat) (suit rank : string) :
  suits !! s = Some suit ->
  ranks !! r = Some rank ->
  __getitem__ (Int (Z.of_nat (s * 13 + r))) __init__
    = (Ok (mkCard rank suit), __init__)
  /\ __getitem__ (Int 0) __init__ = (Ok (mkCard "2" "spades"), __init__).
Proof.
  intros Hs Hr. split; [| reflexivity].
  rewrite getitem_Int. f_equal.
  apply list_item_lookup.
  change (_cards __init__)
    with (flat_map (fun suit => map (fun rank => mkCard rank suit) ranks) suits).
  change 13%nat with (length ranks).
  by apply (lookup_nested_loops (fun suit rank => mkCard rank suit)).
Qed.

Lemma construction_order_witness :
  suits !! 2%nat = Some "clubs" /\ ranks !! 9%nat = Some "J"
  /\ __getitem__ (Int 35) __init__ = (Ok (mkCard "J" "clubs"), __init__).
Proof.
  split; [reflexivity |]. split; [reflexivity |].
  apply (construction_order 2 9 "clubs" "J"); reflexivity.
Defined.

(** C3: [deck[p]] raises [IndexError] exactly when [p] is an integer that,
    after a negative one has had the length added, is outside
    [0 <= i < len(deck)] (a slice never does); [deck[len(deck)]] raises it;
    the error ends the caller's computation at once, and the deck is left
    as it was. *)
Theorem index_out_of_range (deck : FrenchDeck) (n : Z) (p : position) :
  (__len__ deck).1 = Ok n ->
  ((__getitem__ p deck).1 = Raise IndexError
   <-> exists i, p = Int i /\ ~ (0 <= normalize n i < n))
  /\ (__getitem__ (Int n) deck).1 = Raise IndexError
  /\ (__getitem__ p deck).2 = deck
  /\ ((__getitem__ p deck).1 = Raise IndexError ->
      forall (B : Type) (k : item_of p -> M B),
        (x <- __getitem__ p ;; k x) deck = (Raise IndexError, deck)).
Proof.
  rewrite len_eq. intros Hn. cbn [fst] in Hn. injection Hn as <-.
  pose proof (len_nonneg (_cards deck)) as Hlen.
  split; [| split; [| split]].
  - destruct p as [i | start stop step].
    + rewrite getitem_Int. cbn [fst]. rewrite list_item_IndexError_iff. split.
      * intros Hi. by exists i.
      * by intros (i' & [= <-] & Hi).
    + rewrite getitem_Slice. cbn [fst]. split.
      * intros Hraise. by apply list_slice_never_IndexError in Hraise.
      * by intros (i & [=] & _).
  - rewrite getitem_Int. cbn [fst]. apply (@list_item_out_of_range Card).
    unfold normalize. case_match; lia.
  - apply read_only_getitem.
  - intros Hraise B k. unfold bind.
    pose proof (read_only_getitem p deck) as Hsame.
    destruct (__getitem__ p deck) as [r deck'].
    cbn [fst snd] in *. by subst.
Qed.

Lemma index_out_of_range_witness :
  (__len__ __init__).1 = Ok 52
  /\ ((__getitem__ (Int (-53)) __init__).1 = Raise IndexError
      <-> exists i, Int (-53) = Int i /\ ~ (0 <= normalize 52 i < 52))
  /\ (__getitem__ (Int 52) __init__).1 = Raise IndexError.
Proof.
  split; [reflexivity |].
  pose proof (index_out_of_range __init__ 52 (Int (-53)) eq_refl) as (H1 & H2 & _).
  split; [exact H1 | exact H2].
Defined.

(** C4: no public operation changes the deck: after any sequence of them the
    deck is the one that was constructed, so its length and the element at
    every position are what they were; [sorted] in particular returns a new
    list and leaves the deck alone. *)
Theorem operations_leave_deck_unchanged (ops : list operation) (deck : FrenchDeck) :
  (session ops deck).2 = deck
  /\ __len__ (session ops deck).2 = __len__ deck
  /\ (forall p, __getitem__ p (session ops deck).2 = __getitem__ p deck)
  /\ (forall p, __getitem__ p (__getitem__ p deck).2 = __getitem__ p deck)
  /\ (forall fuel key, (sorted fuel key deck).2 = deck).
Proof.
  assert (Hsession : forall ops deck, (session ops deck).2 = deck).
  { clear. induction ops as [| o ops IH]; intros deck; simpl; [reflexivity |].
    pose proof (read_only_perform o deck) as Ho.
    destruct (perform o deck) as [r deck']. simpl in Ho. subst deck'.
    specialize (IH deck). destruct (session ops deck) as [rs deck'']. exact IH. }
  rewrite Hsession.
  split; [reflexivity |]. split; [reflexivity |]. split; [reflexivity |]. split.
  - intros p. by rewrite (read_only_getitem p deck).
  - intros fuel key. apply read_only_sorted.
Qed.

(** C5: [deck[-1]] is [deck[len(deck) - 1]]. *)
Theorem last_element (deck : FrenchDeck) (n : Z) :
  (__len__ deck).1 = Ok n ->
  __getitem__ (Int (-1)) deck = __getitem__ (Int (n - 1)) deck.
Proof.
  rewrite len_eq. intros Hn. cbn [fst] in Hn. injection Hn as <-.
  rewrite !getitem_Int. f_equal. apply list_item_same_normal_form.
  pose proof (len_nonneg (_cards deck)).
  unfold normalize. repeat case_match; lia.
Qed.

Lemma last_element_witness :
  (__len__ __init__).1 = Ok 52
  /\ __getitem__ (Int (-1)) __init__ = __getitem__ (Int (52 - 1)) __init__
  /\ __getitem__ (Int (-1)) __init__ = (Ok (mkCard "A" "hearts"), __init__).
Proof.
  split; [reflexivity |]. split; [| reflexivity].
  apply (last_element __init__ 52). reflexivity.
Defined.

(** C6: [deck[:3]], which is [deck[0:3]], is the first three cards in their
    stored order. *)
Theorem slice_first_three (deck : FrenchDeck) :
  __getitem__ (Slice None (Some 3) None) deck = (Ok (take 3 (_cards deck)), deck)
  /\ __getitem__ (Slice (Some 0) (Some 3) None) deck = (Ok (take 3 (_cards deck)), deck)
  /\ __getitem__ (Slice None (Some 3) None) __init__
     = (Ok [mkCard "2" "spades"; mkCard "3" "spades"; mkCard "4" "spades"], __init__).
Proof.
  split; [| split; [| reflexivity]]; rewrite getitem_Slice; f_equal.
  - apply (list_slice_prefix _ None 3); [by left | lia].
  - apply (list_slice_prefix _ (Some 0) 3); [by right | lia].
Qed.

(** C7: the cards [reversed(deck)] yields, reversed, are the cards [for card
    in deck] sees (which are the stored ones). *)
Theorem reversed_is_opposite (deck : FrenchDeck) (fuel : nat) :
  (length (_cards deck) < fuel)%nat ->
  exists forward backward : list Card,
    iterate fuel deck = (Ok forward, deck)
    /\ reversed deck = (Ok backward, deck)
    /\ reverse backward = forward
    /\ forward = _cards deck.
Proof.
  intros Hfuel. exists (_cards deck), (reverse (_cards deck)).
  rewrite iterate_all by assumption. rewrite reversed_all.
  by rewrite reverse_involutive.
Qed.

Lemma reversed_is_opposite_witness :
  (length (_cards __init__) < 53)%nat
  /\ exists forward backward : list Card,
      iterate 53 __init__ = (Ok forward, __init__)
      /\ reversed __init__ = (Ok backward, __init__)
      /\ reverse backward = forward
      /\ forward = _cards __init__.
Proof.
  assert (H : (length (_cards __init__) < 53)%nat) by (vm_compute; lia).
  split; [exact H |]. exact (reversed_is_opposite __init__ 53 H).
Defined.

(** C8: sorting by a key what [sorted] by that key returned gives the same
    list again; the sort is stable: the cards of any one key are in the
    order they had in the deck. *)
Theorem sort_idempotent
    (fuel : nat) (key : Card -> outcome Z) (deck : FrenchDeck) (once : list Card) :
  (sorted fuel key deck).1 = Ok once ->
  list_sorted key once = Ok once
  /\ (sorted fuel key (mkFrenchDeck once)).1 = Ok once
  /\ (forall k : Z,
        filter (fun card => key card = Ok k) once
        = filter (fun card => key card = Ok k) (_cards deck)).
Proof.
  unfold sorted, bind. intros Honce.
  destruct (iterate fuel deck) as [[cards | e |] deck'] eqn:Eit;
    cbn [fst] in Honce; try discriminate.
  destruct (iterate_Ok deck fuel cards) as [Hfuel ->]; [by rewrite Eit |].
  unfold lift in Honce. cbn [fst] in Honce.
  pose proof (list_sorted_idempotent key _ _ Honce) as Hagain.
  split; [exact Hagain |]. split.
  - rewrite iterate_all.
    + unfold lift. cbn [fst _cards]. exact Hagain.
    + cbn [_cards]. by rewrite (Permutation_length (list_sorted_Permutation key _ _ Honce)).
  - intros k. by apply list_sorted_stable.
Qed.

Lemma sort_idempotent_witness :
  let by_rank := fun card => list_index (rank card) ranks in
  let deck := mkFrenchDeck [mkCard "3" "hearts"; mkCard "2" "spades"; mkCard "3" "clubs"] in
  let once := [mkCard "2" "spades"; mkCard "3" "hearts"; mkCard "3" "clubs"] in
  (sorted 4 by_rank deck).1 = Ok once
  /\ list_sorted by_rank once = Ok once.
Proof.
  intros by_rank deck once.
  assert (H : (sorted 4 by_rank deck).1 = Ok once) by reflexivity.
  split; [exact H |].
  exact (proj1 (sort_idempotent 4 by_rank deck once H)).
Defined.

(** C9: two cards that differ in rank or in suit have different [repr]s. *)
Theorem repr_distinguishes_cards (card1 card2 : Card) :
  (rank card1, suit card1) <> (rank card2, suit card2) ->
  Card_repr card1 <> Card_repr card2.
Proof.
  intros Hdiff Hrepr. apply Hdiff.
  by rewrite (Card_repr_injective _ _ Hrepr).
Qed.

Lemma repr_distinguishes_cards_witness :
  (rank (mkCard "7" "hearts"), suit (mkCard "7" "hearts"))
    <> (rank (mkCard "7" "spades"), suit (mkCard "7" "spades"))
  /\ Card_repr (mkCard "7" "hearts") <> Card_repr (mkCard "7" "spades").
Proof.
  assert (H : (rank (mkCard "7" "hearts"), suit (mkCard "7" "hearts"))
              <> (rank (mkCard "7" "spades"), suit (mkCard "7" "spades")))
    by discriminate.
  split; [exact H |].
  exact (repr_distinguishes_cards (mkCard "7" "hearts") (mkCard "7" "spades") H).
Defined.

(** C10: [spades_high] gives each of the 52 cards its own integer in
    [0..51], the index of the rank (0..12) times 4 plus the value of the suit
    (0..3); so sorting the deck by it has no ties: the keys of the sorted
    deck are 0, 1, ..., 51, from the 2 of clubs to the ace of spades. *)
Theorem spades_high_orders_the_deck :
  (forall card, card ∈ _cards __init__ ->
     exists rank_value suit_value : Z,
       list_index (rank card) ranks = Ok rank_value /\ 0 <= rank_value < 13
       /\ dict_getitem suit_vals (suit card) = Ok suit_value /\ 0 <= suit_value <= 3
       /\ spades_high card = Ok (rank_value * 4 + suit_value)
       /\ 0 <= rank_value * 4 + suit_value <= 51)
  /\ (forall card1 card2,
        card1 ∈ _cards __init__ -> card2 ∈ _cards __init__ ->
        spades_high card1 = spades_high card2 -> card1 = card2)
  /\ (forall fuel : nat, (52 < fuel)%nat ->
        exists in_order : list Card,
          sorted fuel spades_high __init__ = (Ok in_order, __init__)
          /\ omap spades_high in_order = Ok (range 0 52)
          /\ head in_order = Some (mkCard "2" "clubs")
          /\ last in_order = Some (mkCard "A" "spades")).
Proof.
  split; [| split].
  - apply Forall_forall.
    let cards := eval vm_compute in (_cards __init__) in
    change (_cards __init__) with cards.
    repeat (constructor;
            [eexists _, _; repeat split; try (vm_compute; reflexivity);
             vm_compute; discriminate |]).
    constructor.
  - intros card1 card2 H1. revert card2. revert card1 H1.
    apply (Forall_forall
             (fun card1 => forall card2, card2 ∈ _cards __init__ ->
                spades_high card1 = spades_high card2 -> card1 = card2)).
    eapply Forall_impl.
    + apply (bool_decide_unpack
               (Forall (fun card1 =>
                  Forall (fun card2 =>
                    spades_high card1 = spades_high card2 -> card1 = card2)
                  (_cards __init__)) (_cards __init__))).
      vm_compute. exact I.
    + intros card1 Hall. exact (proj1 (Forall_forall _ _) Hall).
  - intros fuel Hfuel. unfold sorted, bind.
    rewrite iterate_all by (vm_compute; lia).
    unfold lift.
    destruct (list_sorted spades_high (_cards __init__)) as [in_order | |] eqn:E;
      try (vm_compute in E; discriminate).
    exists in_order. split; [reflexivity |].
    vm_compute in E. injection E as <-.
    repeat split; vm_compute; reflexivity.
Qed.

(** * Further properties of the code *)

(** ** The cards of a fresh deck *)

Lemma elem_of_nested_loops {X Y C : Type} (f : X -> Y -> C)
    (xs : list X) (ys : list Y) (c : C) :
  c ∈ flat_map (fun x => map (f x) ys) xs
  <-> exists x y, x ∈ xs /\ y ∈ ys /\ c = f x y.
Proof.
  rewrite list_elem_of_In, in_flat_map. split.
  - intros (x & Hx & Hc). apply in_map_iff in Hc as (y & <- & Hy).
    exists x, y. by rewrite !list_elem_of_In.
  - intros (x & y & Hx & Hy & ->). exists x.
    rewrite <- list_elem_of_In. split; [assumption |].
    apply in_map_iff. exists y. by rewrite <- list_elem_of_In.
Qed.

Lemma NoDup_nested_loops {X Y C : Type} (f : X -> Y -> C)
    (xs : list X) (ys : list Y) :
  (forall x1 y1 x2 y2, f x1 y1 = f x2 y2 -> x1 = x2 /\ y1 = y2) ->
  NoDup xs -> NoDup ys ->
  NoDup (flat_map (fun x => map (f x) ys) xs).
Proof.
  intros Hf Hxs Hys. induction Hxs as [| x xs Hx Hxs IH]; simpl.
  - constructor.
  - apply NoDup_app. split; [| split].
    + apply NoDup_fmap_2; [| assumption].
      intros y1 y2 Hy. by apply Hf in Hy as [_ ->].
    + intros c Hc Hc'.
      apply list_elem_of_fmap in Hc as (y & -> & Hy).
      apply elem_of_nested_loops in Hc' as (x' & y' & Hx' & _ & Heq).
      apply Hf in Heq as [-> _]. contradiction.
    + exact IH.
Qed.

(** X1: a fresh deck holds each combination of a rank and a suit, and each
    of them once. *)
Theorem deck_is_the_cross_product :
  NoDup (_cards __init__)
  /\ forall card : Card,
       card ∈ _cards __init__ <-> rank card ∈ ranks /\ suit card ∈ suits.
Proof.
  change (_cards __init__)
    with (flat_map (fun suit => map (fun rank => mkCard rank suit) ranks) suits).
  split.
  - apply (NoDup_nested_loops (fun suit rank => mkCard rank suit)).
    + by intros suit1 rank1 suit2 rank2 [= -> ->].
    + apply (bool_decide_unpack (NoDup suits)). vm_compute. exact I.
    + apply (bool_decide_unpack (NoDup ranks)). vm_compute. exact I.
  - intros [r s].
    rewrite (elem_of_nested_loops (fun suit rank => mkCard rank suit)).
    simpl. split.
    + by intros (suit & rank & Hs & Hr & [= -> ->]).
    + intros [Hr Hs]. by exists s, r.
Qed.

(** ** Valid positions *)

Lemma normalize_mod (n i : Z) :
  - n <= i < n -> normalize n i = i mod n.
Proof.
  intros Hi. unfold normalize. destruct (i <? 0) eqn:E.
  - rewrite <- (Z_mod_plus_full i 1 n). rewrite Z.mod_small; lia.
  - rewrite Z.mod_small; lia.
Qed.

(** X2: [deck[i]] returns a card exactly for [-len(deck) <= i < len(deck)],
    and the card is the stored one at position [i mod len(deck)]. *)
Theorem getitem_valid_positions (d : FrenchDeck) (i : Z) (card : Card) :
  (__getitem__ (Int i) d).1 = Ok card
  <-> - len (_cards d) <= i < len (_cards d)
      /\ _cards d !! Z.to_nat (i mod len (_cards d)) = Some card.
Proof.
  rewrite getitem_Int. cbn [fst].
  pose proof (len_nonneg (_cards d)) as Hlen. split.
  - intros Hok.
    assert (Hin : 0 <= normalize (len (_cards d)) i < len (_cards d)).
    { destruct (decide (0 <= normalize (len (_cards d)) i < len (_cards d)))
        as [Hin | Hout]; [exact Hin |].
      apply (@list_item_out_of_range Card) in Hout. congruence. }
    assert (Hi : - len (_cards d) <= i < len (_cards d)).
    { unfold normalize in Hin. case_match; lia. }
    split; [exact Hi |].
    destruct (list_item_in_range _ i Hin) as (card' & Hlook & Hitem).
    rewrite <- (normalize_mod _ _ Hi). congruence.
  - intros [Hi Hlook]. rewrite <- (normalize_mod _ _ Hi) in Hlook.
    destruct (list_item_in_range (_cards d) i) as (card' & Hlook' & ->).
    + unfold normalize. case_match; lia.
    + congruence.
Qed.

(** ** Slices *)

Lemma omap_Ok_elem_of {A B : Type} (f : A -> outcome B) (l : list A) (ys : list B) :
  omap f l = Ok ys -> forall y, y ∈ ys -> exists x, x ∈ l /\ f x = Ok y.
Proof.
  revert ys. induction l as [| x l IH]; intros ys; simpl.
  - intros [= <-] y Hy. by apply not_elem_of_nil in Hy.
  - destruct (f x) as [y0 | |] eqn:Ex; simpl; try discriminate.
    destruct (omap f l) as [ys' | |]; simpl; try discriminate.
    intros [= <-] y Hy. apply elem_of_cons in Hy as [-> | Hy].
    + exists x. split; [apply list_elem_of_here | exact Ex].
    + destruct (IH ys' eq_refl y Hy) as (x' & Hx' & Hfx').
      exists x'. split; [by apply list_elem_of_further | exact Hfx'].
Qed.

Lemma length_range (lo hi : Z) : length (range lo hi) = Z.to_nat (hi - lo).
Proof. unfold range. by rewrite length_map, length_seq. Qed.

Lemma slice_length_bound (n step : Z) (start stop : option Z) :
  0 <= n -> step <> 0 ->
  slice_length (slice_start n step start) (slice_stop n step stop) step <= n.
Proof.
  intros Hn Hstep.
  pose proof (slice_start_bounds n step start Hn) as Hs.
  pose proof (slice_stop_bounds n step stop Hn) as Ht.
  set (a := slice_start n step start) in *.
  set (b := slice_stop n step stop) in *.
  unfold slice_length.
  destruct (step <? 0) eqn:Eneg.
  - destruct (b <? a) eqn:Eba; [| lia].
    assert ((a - b - 1) / - step <= a - b - 1)
      by (apply Z.div_le_upper_bound; nia).
    lia.
  - destruct (a <? b) eqn:Eab; [| lia].
    assert ((b - a - 1) / step <= b - a - 1)
      by (apply Z.div_le_upper_bound; nia).
    lia.
Qed.

Lemma list_item_Ok_elem_of {A : Type} (l : list A) (i : Z) (a : A) :
  list_item l i = Ok a -> a ∈ l.
Proof.
  unfold list_item. cbv zeta. destruct (_ || _); [discriminate |].
  destruct (l !! _) as [a' |] eqn:E; [| discriminate].
  intros [= <-]. by eapply list_elem_of_lookup_2.
Qed.

(** X3: a slice of the deck raises [ValueError] when its step is zero and
    nothing otherwise, whatever its bounds; it returns cards of the deck, at
    most as many as the deck has, and leaves the deck as it was. *)
Theorem slice_never_out_of_range (d : FrenchDeck) (start stop step : option Z) :
  (step = Some 0 ->
   __getitem__ (Slice start stop step) d = (Raise ValueError, d))
  /\ (step <> Some 0 ->
      exists cards : list Card,
        __getitem__ (Slice start stop step) d = (Ok cards, d)
        /\ (length cards <= length (_cards d))%nat
        /\ forall card, card ∈ cards -> card ∈ _cards d).
Proof.
  rewrite getitem_Slice. split.
  - by intros ->.
  - intros Hstep.
    assert (Hnz : default 1 step <> 0).
    { destruct step as [z |]; simpl; [congruence | lia]. }
    destruct (list_slice_Ok (_cards d) start stop step Hnz) as [cards Hcards].
    exists cards. rewrite Hcards. split; [reflexivity |].
    unfold list_slice in Hcards. cbv zeta in Hcards.
    destruct (default 1 step =? 0) eqn:E; [lia |]. split.
    + rewrite (omap_Ok_length _ _ _ Hcards), length_range.
      pose proof (slice_length_bound (len (_cards d)) (default 1 step) start stop
                    (len_nonneg _) Hnz).
      unfold len in *. lia.
    + intros card Hcard.
      destruct (omap_Ok_elem_of _ _ _ Hcards card Hcard) as (k & _ & Hk).
      by apply list_item_Ok_elem_of in Hk.
Qed.

(** A comprehension over [range(n)] whose [i]-th step returns the [i]-th
    element of [ys] returns [ys]. *)
Lemma omap_seq_lookup {A : Type} (g : nat -> outcome A) (ys : list A) :
  forall s : nat,
    (forall i y, ys !! i = Some y -> g (s + i)%nat = Ok y) ->
    omap g (seq s (length ys)) = Ok ys.
Proof.
  induction ys as [| y ys IH]; intros s Hg; simpl; [reflexivity |].
  pose proof (Hg 0%nat y eq_refl) as Hhead. rewrite Nat.add_0_r in Hhead.
  rewrite Hhead. simpl. rewrite (IH (S s)); [reflexivity |].
  intros i y' Hi. rewrite <- (Hg (S i) y' Hi). f_equal. lia.
Qed.

Lemma list_slice_all {A : Type} (l : list A) :
  list_slice l None None None = Ok l.
Proof.
  unfold list_slice. cbv zeta. simpl default.
  replace (1 =? 0) with false by reflexivity.
  change (slice_start (len l) 1 None) with 0.
  change (slice_stop (len l) 1 None) with (len l).
  assert (Hlen : slice_length 0 (len l) 1 = len l).
  { pose proof (len_nonneg l). unfold slice_length.
    replace (1 <? 0) with false by reflexivity.
    case_match; [rewrite Z.div_1_r |]; lia. }
  rewrite Hlen. unfold range. rewrite omap_map.
  replace (Z.to_nat (len l - 0)) with (length l) by (unfold len; lia).
  apply omap_seq_lookup. intros i y Hy.
  rewrite <- (list_item_lookup l i y Hy). f_equal. lia.
Qed.

Lemma list_slice_backwards {A : Type} (l : list A) :
  list_slice l None None (Some (-1)) = Ok (reverse l).
Proof.
  unfold list_slice. cbv zeta. simpl default.
  replace (-1 =? 0) with false by reflexivity.
  change (slice_start (len l) (-1) None) with (len l - 1).
  change (slice_stop (len l) (-1) None) with (-1).
  assert (Hlen : slice_length (len l - 1) (-1) (-1) = len l).
  { pose proof (len_nonneg l). unfold slice_length.
    replace (-1 <? 0) with true by reflexivity.
    change (- -1) with 1. case_match; [rewrite Z.div_1_r |]; lia. }
  rewrite Hlen. unfold range. rewrite omap_map.
  replace (Z.to_nat (len l - 0)) with (length (reverse l))
    by (rewrite length_reverse; unfold len; lia).
  apply omap_seq_lookup. intros i y Hy.
  pose proof (lookup_lt_Some _ _ _ Hy) as Hi. rewrite length_reverse in Hi.
  rewrite reverse_lookup in Hy by assumption.
  rewrite <- (list_item_lookup l _ y Hy). f_equal. unfold len. lia.
Qed.

(** X4: [deck[:]] is a list of all the cards in their order, [deck[::-1]] a
    list of all of them in the opposite order, which is what
    [reversed(deck)] yields. *)
Theorem whole_slices (d : FrenchDeck) :
  __getitem__ (Slice None None None) d = (Ok (_cards d), d)
  /\ __getitem__ (Slice None None (Some (-1))) d = (Ok (reverse (_cards d)), d)
  /\ reversed d = __getitem__ (Slice None None (Some (-1))) d.
Proof.
  rewrite !getitem_Slice, reversed_all, list_slice_all, list_slice_backwards.
  done.
Qed.

(** X5: the [k]-th card that [reversed(deck)] yields is [deck[-1 - k]]. *)
Theorem reversed_counts_from_the_end (d : FrenchDeck) (k : nat) :
  (k < length (_cards d))%nat ->
  exists (backward : list Card) (card : Card),
    reversed d = (Ok backward, d)
    /\ backward !! k = Some card
    /\ __getitem__ (Int (-1 - Z.of_nat k)) d = (Ok card, d).
Proof.
  intros Hk.
  destruct (lookup_lt_is_Some_2 (reverse (_cards d)) k) as [card Hcard];
    [by rewrite length_reverse |].
  exists (reverse (_cards d)), card.
  split; [apply reversed_all |]. split; [exact Hcard |].
  rewrite getitem_Int. f_equal.
  rewrite reverse_lookup in Hcard by assumption.
  rewrite <- (list_item_lookup _ _ _ Hcard).
  apply (@list_item_same_normal_form Card). unfold normalize, len.
  repeat case_match; rewrite ?Z.ltb_lt, ?Z.ltb_ge in *; lia.
Qed.

Lemma reversed_counts_from_the_end_witness :
  (3 < length (_cards __init__))%nat
  /\ exists (backward : list Card) (card : Card),
      reversed __init__ = (Ok backward, __init__)
      /\ backward !! 3%nat = Some card
      /\ __getitem__ (Int (-1 - Z.of_nat 3)) __init__ = (Ok card, __init__).
Proof.
  assert (H : (3 < length (_cards __init__))%nat) by (vm_compute; lia).
  split; [exact H |]. exact (reversed_counts_from_the_end __init__ 3 H).
Defined.

(** ** Random choice *)

(** X6: [choice(deck)] raises [IndexError] on a deck without cards; on any
    other deck, for a random number within [0 <= r < len(deck)], it returns
    the card stored at position [r]; the deck is left as it was. *)
Theorem choice_picks_a_card (randbelow : Z -> Z) (d : FrenchDeck) (n : Z) :
  (__len__ d).1 = Ok n ->
  (n = 0 -> choice randbelow d = (Raise IndexError, d))
  /\ (0 <= randbelow n < n ->
      exists card : Card,
        choice randbelow d = (Ok card, d)
        /\ _cards d !! Z.to_nat (randbelow n) = Some card).
Proof.
  rewrite len_eq. intros Hn. cbn [fst] in Hn. injection Hn as <-.
  unfold choice, bind. rewrite len_eq. split.
  - intros Hzero. by rewrite Hzero.
  - intros Hr. destruct (len (_cards d) =? 0) eqn:E; [lia |].
    rewrite getitem_Int.
    destruct (list_item_in_range (_cards d) (randbelow (len (_cards d))))
      as (card & Hlook & Hitem).
    { unfold normalize. case_match; lia. }
    exists card. split; [by rewrite Hitem |].
    rewrite <- Hlook. f_equal. f_equal. unfold normalize. case_match; lia.
Qed.

Lemma choice_picks_a_card_witness :
  (__len__ __init__).1 = Ok 52
  /\ exists card : Card,
      choice (fun n => n - 1) __init__ = (Ok card, __init__)
      /\ _cards __init__ !! Z.to_nat (52 - 1) = Some card.
Proof.
  split; [reflexivity |].
  apply (proj2 (choice_picks_a_card (fun n => n - 1) __init__ 52 eq_refl)). lia.
Defined.

(** ** The key [spades_high] *)

Lemma list_index_Ok (x : string) (l : list string) :
  forall i : Z,
    list_index x l = Ok i ->
    0 <= i /\ l !! Z.to_nat i = Some x
    /\ forall j : nat, (j < Z.to_nat i)%nat -> l !! j <> Some x.
Proof.
  induction l as [| y l IH]; intros i; simpl; [discriminate |].
  destruct (String.eqb_spec y x) as [-> | Hne].
  - intros [= <-]. split; [lia |]. split; [reflexivity |]. intros j Hj. simpl in Hj. lia.
  - destruct (list_index x l) as [i' | |]; simpl; try discriminate.
    intros [= <-]. destruct (IH i' eq_refl) as (Hi' & Hlook & Hfirst).
    split; [lia |]. split.
    + replace (Z.to_nat (i' + 1)) with (S (Z.to_nat i')) by lia. exact Hlook.
    + intros [| j] Hj; simpl; [congruence |]. apply Hfirst. lia.
Qed.

Lemma list_index_elem_of (x : string) (l : list string) :
  x ∈ l -> exists i, list_index x l = Ok i /\ 0 <= i < len l.
Proof.
  unfold len. induction l as [| y l IH]; intros Hx; simpl.
  - by apply not_elem_of_nil in Hx.
  - destruct (String.eqb_spec y x) as [-> | Hne].
    + exists 0. split; [reflexivity | lia].
    + apply elem_of_cons in Hx as [-> | Hx]; [done |].
      destruct (IH Hx) as (i & -> & Hi). exists (i + 1). simpl. split; [reflexivity | lia].
Qed.

Lemma list_index_not_elem_of (x : string) (l : list string) :
  x ∉ l -> list_index x l = Raise ValueError.
Proof.
  induction l as [| y l IH]; intros Hx; simpl; [reflexivity |].
  apply not_elem_of_cons in Hx as [Hne Hx].
  destruct (String.eqb_spec y x) as [-> | _]; [done |].
  by rewrite IH.
Qed.

Lemma suit_vals_lookup (s : string) (v : Z) :
  suit_vals !! s = Some v
  <-> (s = "spades" /\ v = 3) \/ (s = "hearts" /\ v = 2)
      \/ (s = "diamonds" /\ v = 1) \/ (s = "clubs" /\ v = 0).
Proof.
  unfold suit_vals. rewrite !lookup_insert_Some, lookup_empty. split.
  - intros [[<- <-] | [_ [[<- <-] | [_ [[<- <-] | [_ [[<- <-] | [_ [=]]]]]]]]];
      tauto.
  - intros [[-> ->] | [[-> ->] | [[-> ->] | [-> ->]]]].
    + by left.
    + right. split; [done |]. by left.
    + right. split; [done |]. right. split; [done |]. by left.
    + right. split; [done |]. right. split; [done |]. right. split; [done |].
      by left.
Qed.

Lemma suit_vals_keys (s : string) : is_Some (suit_vals !! s) <-> s ∈ suits.
Proof.
  change suits with ["spades"; "diamonds"; "clubs"; "hearts"].
  rewrite !elem_of_cons, elem_of_nil. split.
  - intros [v Hv]. apply suit_vals_lookup in Hv.
    destruct Hv as [[-> _] | [[-> _] | [[-> _] | [-> _]]]]; tauto.
  - intros [-> | [-> | [-> | [-> | []]]]]; eexists; apply suit_vals_lookup;
      [left | right; right; left | right; right; right | right; left];
      split; reflexivity.
Qed.

Lemma size_suit_vals : Z.of_nat (size suit_vals) = 4.
Proof. vm_compute. reflexivity. Qed.

Lemma spades_high_Ok (card : Card) (k : Z) :
  spades_high card = Ok k
  <-> exists i v, list_index (rank card) ranks = Ok i
                  /\ suit_vals !! suit card = Some v /\ k = i * 4 + v.
Proof.
  unfold spades_high, dict_getitem. rewrite size_suit_vals. split.
  - destruct (list_index (rank card) ranks) as [i | |]; try discriminate.
    unfold obind at 1.
    destruct (suit_vals !! suit card) as [v |]; try discriminate.
    intros [= <-]. by exists i, v.
  - intros (i & v & -> & -> & ->). reflexivity.
Qed.

(** X7: what [spades_high] does on any card: [ValueError] for a rank that is
    not one of the deck's ranks, whatever the suit; [KeyError] for one of
    the ranks with a suit that is not one of the four; an integer in
    [0..51] otherwise. *)
Theorem spades_high_outcomes (card : Card) :
  (rank card ∉ ranks -> spades_high card = Raise ValueError)
  /\ (rank card ∈ ranks -> suit card ∉ suits -> spades_high card = Raise KeyError)
  /\ (rank card ∈ ranks -> suit card ∈ suits ->
      exists k, spades_high card = Ok k /\ 0 <= k <= 51).
Proof.
  split; [| split].
  - intros Hr. unfold spades_high. by rewrite (list_index_not_elem_of _ _ Hr).
  - intros Hr Hs. unfold spades_high, dict_getitem.
    destruct (list_index_elem_of _ _ Hr) as (i & -> & _). unfold obind at 1.
    destruct (suit_vals !! suit card) as [v |] eqn:Ev; [| reflexivity].
    exfalso. apply Hs, suit_vals_keys. by exists v.
  - intros Hr Hs.
    destruct (list_index_elem_of _ _ Hr) as (i & Hi & Hbound).
    apply suit_vals_keys in Hs as [v Hv].
    exists (i * 4 + v). split.
    + apply spades_high_Ok. by exists i, v.
    + change (len ranks) with 13 in Hbound.
      apply suit_vals_lookup in Hv. lia.
Qed.

(** X8: the key says which card it is the key of: the rank is
    [ranks[k // 4]] and the suit the one of value [k % 4]; so no two cards,
    in the deck or not, have the same key. *)
Theorem spades_high_decodes (card : Card) (k : Z) :
  spades_high card = Ok k ->
  ranks !! Z.to_nat (k / 4) = Some (rank card)
  /\ suit_vals !! suit card = Some (k mod 4)
  /\ forall other : Card, spades_high other = Ok k -> other = card.
Proof.
  assert (Hdecode : forall c k', spades_high c = Ok k' ->
            ranks !! Z.to_nat (k' / 4) = Some (rank c)
            /\ suit_vals !! suit c = Some (k' mod 4)).
  { intros c k' Hk'. apply spades_high_Ok in Hk' as (i & v & Hi & Hv & ->).
    apply list_index_Ok in Hi as (Hi & Hlook & _).
    assert (Hrange : 0 <= v < 4) by (apply suit_vals_lookup in Hv; lia).
    replace ((i * 4 + v) / 4) with i
      by (apply (Z.div_unique _ 4 i v); lia).
    replace ((i * 4 + v) mod 4) with v
      by (apply (Z.mod_unique _ 4 i v); lia).
    done. }
  intros Hk. destruct (Hdecode card k Hk) as [Hrank Hsuit].
  split; [exact Hrank |]. split; [exact Hsuit |].
  intros [r s] Hother. destruct (Hdecode _ _ Hother) as [Hrank' Hsuit'].
  destruct card as [r0 s0]. simpl in *.
  assert (r = r0) by congruence. subst r. f_equal.
  apply suit_vals_lookup in Hsuit, Hsuit'.
  destruct Hsuit as [[-> Hv] | [[-> Hv] | [[-> Hv] | [-> Hv]]]];
    destruct Hsuit' as [[-> Hv'] | [[-> Hv'] | [[-> Hv'] | [-> Hv']]]];
    first [reflexivity | lia].
Qed.

Lemma spades_high_decodes_witness :
  spades_high (mkCard "Q" "hearts") = Ok 42
  /\ ranks !! Z.to_nat (42 / 4) = Some "Q"
  /\ suit_vals !! "hearts" = Some (42 mod 4).
Proof.
  assert (H : spades_high (mkCard "Q" "hearts") = Ok 42) by (vm_compute; reflexivity).
  split; [exact H |].
  destruct (spades_high_decodes (mkCard "Q" "hearts") 42 H) as (H1 & H2 & _).
  split; [exact H1 | exact H2].
Defined.

(** ** What [sorted] returns and when it raises *)

Lemma ascending_StronglySorted {A : Type} (l : list (Z * A)) :
  ascending l -> StronglySorted Z.le (map fst l).
Proof.
  induction l as [| x l IH]; simpl; [constructor |].
  intros [Hx Hl]. constructor; [by apply IH |].
  apply Forall_fmap. exact Hx.
Qed.

(** X9: the list [sorted(deck, key=key)] returns is a rearrangement of the
    cards of the deck, no card lost or added, with the keys in
    non-decreasing order. *)
Theorem sorted_is_an_ascending_rearrangement
    (fuel : nat) (key : Card -> outcome Z) (d : FrenchDeck) (in_order : list Card) :
  (sorted fuel key d).1 = Ok in_order ->
  in_order ≡ₚ _cards d
  /\ exists keys : list Z,
       omap key in_order = Ok keys /\ StronglySorted Z.le keys.
Proof.
  unfold sorted, bind. intros Hsorted.
  destruct (iterate fuel d) as [[cards | e |] d'] eqn:Eit;
    cbn [fst] in Hsorted; try discriminate.
  destruct (iterate_Ok d fuel cards) as [_ ->]; [by rewrite Eit |].
  unfold lift in Hsorted. cbn [fst] in Hsorted.
  split; [by apply (list_sorted_Permutation key) |].
  unfold list_sorted in Hsorted.
  destruct (omap key (_cards d)) as [keys | |] eqn:Ek; simpl in Hsorted;
    try discriminate.
  injection Hsorted as <-.
  exists (map fst (sort_by_key (combine keys (_cards d)))). split.
  - apply keyed_omap, sort_by_key_Forall, omap_key_keyed, Ek.
  - apply ascending_StronglySorted, sort_by_key_ascending.
Qed.

Lemma sorted_is_an_ascending_rearrangement_witness :
  let d := mkFrenchDeck [mkCard "K" "hearts"; mkCard "2" "spades"; mkCard "K" "clubs"] in
  let in_order := [mkCard "2" "spades"; mkCard "K" "clubs"; mkCard "K" "hearts"] in
  (sorted 4 spades_high d).1 = Ok in_order
  /\ in_order ≡ₚ _cards d.
Proof.
  intros d in_order.
  assert (H : (sorted 4 spades_high d).1 = Ok in_order) by (vm_compute; reflexivity).
  split; [exact H |].
  exact (proj1 (sorted_is_an_ascending_rearrangement 4 spades_high d in_order H)).
Defined.

(** The first element whose key raises decides what the comprehension raises. *)
Lemma omap_first_Raise {A B : Type} (f : A -> outcome B) (l : list A) :
  forall (i : nat) (x : A) (e : exn),
    l !! i = Some x -> f x = Raise e ->
    (forall (j : nat) (y : A), (j < i)%nat -> l !! j = Some y -> exists b, f y = Ok b) ->
    omap f l = Raise e.
Proof.
  induction l as [| a l IH]; intros i x e Hi Hx Hbefore; [by destruct i |].
  destruct i as [| i]; simpl in Hi.
  - injection Hi as ->. simpl. by rewrite Hx.
  - destruct (Hbefore 0%nat a) as [b Hb]; [lia | reflexivity |].
    simpl. rewrite Hb. simpl.
    rewrite (IH i x e Hi Hx); [reflexivity |].
    intros j y Hj Hy. apply (Hbefore (S j) y); [lia | exact Hy].
Qed.

(** X10: when the key function raises on a card, [sorted] raises what the
    key raised on the first such card of the deck, and returns no list; the
    deck is left as it was. *)
Theorem sorted_raises_what_the_key_raises
    (fuel : nat) (key : Card -> outcome Z) (d : FrenchDeck)
    (i : nat) (card : Card) (e : exn) :
  (length (_cards d) < fuel)%nat ->
  _cards d !! i = Some card ->
  key card = Raise e ->
  (forall (j : nat) (earlier : Card),
      (j < i)%nat -> _cards d !! j = Some earlier -> exists k, key earlier = Ok k) ->
  sorted fuel key d = (Raise e, d).
Proof.
  intros Hfuel Hi He Hbefore. unfold sorted, bind.
  rewrite iterate_all by assumption. unfold lift, list_sorted.
  by rewrite (omap_first_Raise key _ i card e Hi He Hbefore).
Qed.

Lemma sorted_raises_what_the_key_raises_witness :
  let d := mkFrenchDeck [mkCard "2" "spades"; mkCard "7" "stars"; mkCard "1" "clubs"] in
  (length (_cards d) < 4)%nat
  /\ _cards d !! 1%nat = Some (mkCard "7" "stars")
  /\ spades_high (mkCard "7" "stars") = Raise KeyError
  /\ sorted 4 spades_high d = (Raise KeyError, d).
Proof.
  intros d.
  assert (Hfuel : (length (_cards d) < 4)%nat) by (simpl; lia).
  assert (Hi : _cards d !! 1%nat = Some (mkCard "7" "stars")) by reflexivity.
  assert (He : spades_high (mkCard "7" "stars") = Raise KeyError)
    by (vm_compute; reflexivity).
  split; [exact Hfuel |]. split; [exact Hi |]. split; [exact He |].
  apply (sorted_raises_what_the_key_raises 4 spades_high d 1 _ _ Hfuel Hi He).
  intros [| j] earlier Hj Hlook; [| lia].
  injection Hlook as <-. exists 3. vm_compute. reflexivity.
Defined.

(** ** The cells that print *)

Lemma on_deck_getitem (i : Z) (w : world) :
  on_deck (until_IndexError (__getitem__ (Int i))) w
  = (match @list_item Card (_cards (deck w)) i with
     | Ok card => Ok (Some card)
     | Raise IndexError => Ok None
     | Raise e => Raise e
     | OutOfFuel => OutOfFuel
     end, w).
Proof.
  destruct w as [d out]. unfold on_deck, until_IndexError. rewrite getitem_Int.
  simpl. by destruct (list_item (_cards d) i) as [card | [] |].
Qed.

Lemma for_in_deck_print (d : FrenchDeck) (fuel : nat) :
  forall (s : nat) (out : list string),
    (s <= length (_cards d))%nat ->
    (length (_cards d) - s < fuel)%nat ->
    for_in_deck fuel (Z.of_nat s) print (mkWorld d out)
    = (Ok tt, mkWorld d (out ++ map Card_str (drop s (_cards d)))).
Proof.
  induction fuel as [| fuel IH]; intros s out Hs Hfuel; [lia |].
  cbn [for_in_deck]. unfold io_bind at 1. rewrite on_deck_getitem. simpl deck.
  destruct (decide (s < length (_cards d))%nat) as [Hlt | Hge].
  - destruct (lookup_lt_is_Some_2 (_cards d) s Hlt) as [card Hcard].
    rewrite (list_item_lookup _ s card Hcard).
    unfold io_bind, print. simpl.
    replace (Z.of_nat s + 1) with (Z.of_nat (S s)) by lia.
    rewrite IH by lia. rewrite (drop_S _ card s Hcard). simpl.
    by rewrite <- app_assoc.
  - rewrite list_item_out_of_range.
    + rewrite drop_ge by lia. simpl. by rewrite app_nil_r.
    + unfold normalize, len. case_match; lia.
Qed.

Lemma for_in_reversed_from_print (d : FrenchDeck) (n : nat) :
  forall out : list string,
    (n <= length (_cards d))%nat ->
    for_in_reversed_from n print (mkWorld d out)
    = (Ok tt, mkWorld d (out ++ map Card_str (reverse (take n (_cards d))))).
Proof.
  induction n as [| n IH]; intros out Hn.
  - simpl. by rewrite app_nil_r.
  - cbn [for_in_reversed_from]. unfold io_bind at 1.
    rewrite on_deck_getitem. simpl deck.
    destruct (lookup_lt_is_Some_2 (_cards d) n) as [card Hcard]; [lia |].
    rewrite (list_item_lookup _ n card Hcard).
    unfold io_bind, print. simpl. rewrite IH by lia.
    rewrite (take_S_r _ n card Hcard), reverse_snoc. simpl.
    by rewrite <- app_assoc.
Qed.

Lemma for_in_list_print (cards : list Card) :
  forall w : world,
    for_in_list cards print w
    = (Ok tt, mkWorld (deck w) (stdout w ++ map Card_str cards)).
Proof.
  induction cards as [| card cards IH]; intros [d out]; simpl.
  - by rewrite app_nil_r.
  - unfold io_bind, print. simpl. rewrite IH. simpl. by rewrite <- app_assoc.
Qed.

(** X11: the cell [for card in deck: print(card)] prints the [repr] of every
    card, a line each, in the order of the deck, and changes nothing else;
    the lines of a deck without a repeated card are all different. *)
Theorem print_deck_prints_every_card (fuel : nat) (w : world) :
  (length (_cards (deck w)) < fuel)%nat ->
  print_deck fuel w
  = (Ok tt, mkWorld (deck w) (stdout w ++ map Card_repr (_cards (deck w))))
  /\ (NoDup (_cards (deck w)) -> NoDup (map Card_repr (_cards (deck w)))).
Proof.
  intros Hfuel. split.
  - destruct w as [d out]. unfold print_deck. change 0 with (Z.of_nat 0).
    rewrite for_in_deck_print; [| lia | simpl in Hfuel; lia].
    by rewrite drop_0.
  - apply NoDup_fmap_2. intros card1 card2. apply Card_repr_injective.
Qed.

Lemma print_deck_prints_every_card_witness :
  let w := mkWorld (mkFrenchDeck [mkCard "A" "hearts"; mkCard "10" "clubs"]) ["52"] in
  (length (_cards (deck w)) < 3)%nat
  /\ print_deck 3 w
     = (Ok tt, mkWorld (deck w)
                 ["52"; "Card(rank='A', suit='hearts')"; "Card(rank='10', suit='clubs')"]).
Proof.
  intros w.
  assert (H : (length (_cards (deck w)) < 3)%nat) by (simpl; lia).
  split; [exact H |]. exact (proj1 (print_deck_prints_every_card 3 w H)).
Defined.

(** X12: the cell [for reversed_card in reversed(deck): print(...)] prints
    the lines of the cell above in the opposite order. *)
Theorem print_reversed_prints_backwards (w : world) :
  print_reversed w
  = (Ok tt, mkWorld (deck w) (stdout w ++ reverse (map Card_repr (_cards (deck w))))).
Proof.
  destruct w as [d out]. unfold print_reversed, for_in_reversed, io_bind, on_deck.
  rewrite len_eq. simpl deck. simpl stdout. unfold len. rewrite Nat2Z.id.
  rewrite for_in_reversed_from_print by lia.
  by rewrite firstn_all, <- fmap_reverse.
Qed.

Lemma sorted_eq (fuel : nat) (key : Card -> outcome Z) (d : FrenchDeck) :
  (length (_cards d) < fuel)%nat ->
  sorted fuel key d = (list_sorted key (_cards d), d).
Proof.
  intros Hfuel. unfold sorted, bind. by rewrite iterate_all by assumption.
Qed.

Lemma omap_some_Raise {A B : Type} (f : A -> outcome B) (l : list A) :
  (exists x e, x ∈ l /\ f x = Raise e) ->
  (forall x, x ∈ l -> f x <> OutOfFuel) ->
  exists x e, x ∈ l /\ f x = Raise e /\ omap f l = Raise e.
Proof.
  induction l as [| a l IH]; intros (x & e & Hx & He) Htotal.
  - by apply not_elem_of_nil in Hx.
  - simpl. destruct (f a) as [b | e' |] eqn:Ea.
    + apply elem_of_cons in Hx as [-> | Hx]; [congruence |].
      destruct IH as (x' & e' & Hx' & He' & Hall).
      { by exists x, e. }
      { intros y Hy. apply Htotal. by apply list_elem_of_further. }
      exists x', e'. split; [by apply list_elem_of_further |].
      split; [exact He' |]. simpl. by rewrite Hall.
    + exists a, e'. split; [apply list_elem_of_here |]. by split.
    + exfalso. apply (Htotal a); [apply list_elem_of_here | exact Ea].
Qed.

Lemma spades_high_cases (card : Card) :
  (rank card ∈ ranks /\ suit card ∈ suits /\ exists k, spades_high card = Ok k)
  \/ (~ (rank card ∈ ranks /\ suit card ∈ suits)
      /\ exists e, (e = ValueError \/ e = KeyError) /\ spades_high card = Raise e).
Proof.
  destruct (spades_high_outcomes card) as (Hvalue & Hkey & Hok).
  destruct (decide (rank card ∈ ranks)) as [Hr | Hr].
  - destruct (decide (suit card ∈ suits)) as [Hs | Hs].
    + left. destruct (Hok Hr Hs) as (k & Hk & _). eauto.
    + right. split; [tauto |]. exists KeyError. auto.
  - right. split; [tauto |]. exists ValueError. auto.
Qed.

(** X13: the cell [for sorted_card in sorted(deck, key=spades_high):
    print(...)] prints all or nothing.  When every card has one of the
    deck's ranks and suits it prints a rearrangement of the lines of the
    first cell; when some card has not, it raises [ValueError] or
    [KeyError] before anything is printed. *)
Theorem print_sorted_all_or_nothing (fuel : nat) (w : world) :
  (length (_cards (deck w)) < fuel)%nat ->
  (Forall (fun card => rank card ∈ ranks /\ suit card ∈ suits) (_cards (deck w)) ->
   exists in_order : list Card,
     in_order ≡ₚ _cards (deck w)
     /\ print_sorted fuel w
        = (Ok tt, mkWorld (deck w) (stdout w ++ map Card_repr in_order)))
  /\ (~ Forall (fun card => rank card ∈ ranks /\ suit card ∈ suits) (_cards (deck w)) ->
      exists e : exn,
        (e = ValueError \/ e = KeyError) /\ print_sorted fuel w = (Raise e, w)).
Proof.
  intros Hfuel. destruct w as [d out]. simpl in *.
  unfold print_sorted, io_bind, on_deck. simpl deck. simpl stdout.
  rewrite sorted_eq by assumption. split.
  - intros Hknown.
    destruct (omap_all_Ok spades_high (_cards d)) as [keys Hkeys].
    { intros card Hcard. apply (proj1 (Forall_forall _ _) Hknown) in Hcard.
      destruct (spades_high_cases card) as [(_ & _ & Hk) | [Hno _]]; tauto. }
    destruct (list_sorted spades_high (_cards d)) as [in_order | |] eqn:Esorted;
      try (unfold list_sorted in Esorted; rewrite Hkeys in Esorted; discriminate).
    exists in_order. split; [by apply (list_sorted_Permutation spades_high) |].
    by rewrite for_in_list_print.
  - intros Hunknown.
    apply not_Forall_Exists in Hunknown; [| intros card; apply _].
    apply Exists_exists in Hunknown as (card & Hcard & Hno).
    destruct (omap_some_Raise spades_high (_cards d)) as (x & e & Hx & He & Hall).
    { destruct (spades_high_cases card) as [(Hr & Hs & _) | (_ & e & _ & He)].
      - exfalso. by apply Hno.
      - by exists card, e. }
    { intros c _. destruct (spades_high_cases c) as [(_ & _ & k & ->) | (_ & e & _ & ->)];
        discriminate. }
    exists e. split.
    + destruct (spades_high_cases x) as [(_ & _ & k & Hk) | (_ & e' & He' & Hx')];
        [congruence |].
      rewrite He in Hx'. by injection Hx' as ->.
    + unfold list_sorted. by rewrite Hall.
Qed.

Lemma print_sorted_all_or_nothing_witness :
  let w := mkWorld (mkFrenchDeck [mkCard "K" "hearts"; mkCard "1" "spades"]) ["52"] in
  (length (_cards (deck w)) < 3)%nat
  /\ exists e : exn,
      (e = ValueError \/ e = KeyError) /\ print_sorted 3 w = (Raise e, w).
Proof.
  intros w.
  assert (H : (length (_cards (deck w)) < 3)%nat) by (simpl; lia).
  split; [exact H |].
  apply (proj2 (print_sorted_all_or_nothing 3 w H)).
  intros Hall. apply Forall_cons in Hall as [_ Hall].
  apply Forall_cons in Hall as [[Hrank _] _].
  revert Hrank. apply (bool_decide_unpack (rank (mkCard "1" "spades") ∉ ranks)).
  vm_compute. exact I.
Defined.

(** ** The [Card] class of the notes *)

(** X14: the [__repr__] of the notes is unambiguous: two cards with the same
    [repr] have the same rank and the same suit. *)
Theorem notes_repr_is_unambiguous (card1 card2 : Card) :
  NotesCard.__repr__ card1 = NotesCard.__repr__ card2 -> card1 = card2.
Proof.
  destruct card1 as [rank1 suit1], card2 as [rank2 suit2].
  unfold NotesCard.__repr__. simpl rank. simpl suit. intros Heq.
  apply string_app_inv_head, str_repr_unique in Heq as [-> Heq].
  apply string_app_inv_head, str_repr_unique in Heq as [-> _].
  reflexivity.
Qed.

Lemma notes_repr_is_unambiguous_witness :
  NotesCard.__repr__ (mkCard "7" "hearts") = "Card('7', 'hearts')"
  /\ mkCard "7" "hearts" = mkCard "7" "hearts".
Proof.
  assert (H : NotesCard.__repr__ (mkCard "7" "hearts")
              = NotesCard.__repr__ (mkCard "7" "hearts")) by reflexivity.
  split; [reflexivity |].
  exact (notes_repr_is_unambiguous _ _ H).
Defined.

Lemma str_of_unique (rank1 rank2 suit1 suit2 : string) :
  contains " " rank1 = false -> contains " " rank2 = false ->
  (rank1 ++ " of " ++ suit1 = rank2 ++ " of " ++ suit2)%string ->
  rank1 = rank2 /\ suit1 = suit2.
Proof.
  revert rank2. induction rank1 as [| c1 rank1 IH]; intros [| c2 rank2];
    cbn [contains]; intros H1 H2 Heq.
  - split; [reflexivity |]. rewrite !string_app_nil in Heq.
    by apply (string_app_inv_head " of ").
  - rewrite string_app_nil, !string_app_cons in Heq. injection Heq as <- _.
    by rewrite Ascii.eqb_refl in H2.
  - rewrite string_app_nil, !string_app_cons in Heq. injection Heq as -> _.
    by rewrite Ascii.eqb_refl in H1.
  - rewrite !string_app_cons in Heq. injection Heq as -> Heq.
    apply orb_false_iff in H1 as [_ H1]. apply orb_false_iff in H2 as [_ H2].
    destruct (IH rank2 H1 H2 Heq) as [-> ->]. done.
Qed.

(** X15: the [__str__] of the notes is ambiguous: two different cards can
    have the same [str]; it tells apart the cards whose rank has no space. *)
Theorem notes_str_is_ambiguous :
  (exists card1 card2 : Card,
      card1 <> card2 /\ NotesCard.__str__ card1 = NotesCard.__str__ card2)
  /\ (forall card1 card2 : Card,
        contains " " (rank card1) = false ->
        contains " " (rank card2) = false ->
        NotesCard.__str__ card1 = NotesCard.__str__ card2 -> card1 = card2).
Proof.
  split.
  - exists (mkCard "7 of 8" "hearts"), (mkCard "7" "8 of hearts").
    split; [discriminate | reflexivity].
  - intros [rank1 suit1] [rank2 suit2]. unfold NotesCard.__str__. simpl.
    intros H1 H2 Heq. by destruct (str_of_unique _ _ _ _ H1 H2 Heq) as [-> ->].
Qed.

Lemma repr_char_plain (c : ascii) :
  plain_char c = true -> repr_char squote c = String c EmptyString.
Proof.
  destruct c as [[] [] [] [] [] [] [] []]; vm_compute; intros H;
    first [reflexivity | discriminate H].
Qed.

Lemma plain_char_not_squote (c : ascii) :
  plain_char c = true -> Ascii.eqb c squote = false.
Proof.
  unfold plain_char. destruct (Ascii.eqb c squote); [| reflexivity].
  by rewrite andb_false_r.
Qed.

Lemma str_repr_plain (s : string) :
  plain s = true -> str_repr s = String squote (s ++ String squote EmptyString).
Proof.
  intros Hplain.
  assert (Hquote : contains squote s = false).
  { induction s as [| c s IH]; [reflexivity |]. simpl in *.
    apply andb_true_iff in Hplain as [Hc Hs].
    by rewrite (plain_char_not_squote c Hc), IH. }
  assert (Hchars : repr_chars squote s = s).
  { induction s as [| c s IH]; [reflexivity |]. simpl in *.
    apply andb_true_iff in Hplain as [Hc Hs].
    apply orb_false_iff in Hquote as [_ Hquote].
    by rewrite (repr_char_plain c Hc), string_app_cons, string_app_nil, IH. }
  assert (Hq : repr_quote s = squote) by (unfold repr_quote; by rewrite Hquote).
  unfold str_repr. cbv zeta. by rewrite Hq, Hchars.
Qed.

(** X16: for a rank and a suit of printable characters without single quote
    and backslash, as those of the deck are, [repr] shows them between
    single quotes and unchanged: the named tuple as
    [Card(rank='...', suit='...')], the class of the notes as
    [Card('...', '...')]. *)
Theorem repr_of_plain_cards (card : Card) :
  plain (rank card) = true -> plain (suit card) = true ->
  Card_repr card
  = "Card(rank='" ++ rank card ++ "', suit='" ++ suit card ++ "')"
  /\ NotesCard.__repr__ card
     = "Card('" ++ rank card ++ "', '" ++ suit card ++ "')".
Proof.
  intros Hrank Hsuit. unfold Card_repr, NotesCard.__repr__.
  rewrite (str_repr_plain _ Hrank), (str_repr_plain _ Hsuit).
  generalize (rank card) (suit card). intros r s'.
  split; repeat rewrite ?string_app_assoc, ?string_app_cons, ?string_app_nil;
    reflexivity.
Qed.

Lemma repr_of_plain_cards_witness :
  plain (rank (mkCard "7" "hearts")) = true
  /\ plain (suit (mkCard "7" "hearts")) = true
  /\ Card_repr (mkCard "7" "hearts") = "Card(rank='7', suit='hearts')"
  /\ NotesCard.__repr__ (mkCard "7" "hearts") = "Card('7', 'hearts')".
Proof.
  assert (H1 : plain (rank (mkCard "7" "hearts")) = true) by reflexivity.
  assert (H2 : plain (suit (mkCard "7" "hearts")) = true) by reflexivity.
  split; [exact H1 |]. split; [exact H2 |].
  exact (repr_of_plain_cards (mkCard "7" "hearts") H1 H2).
Defined.
